(** * S&P 500 data pipeline and SMA-crossover dashboard: a shallow embedding

    The development follows the two programs of the repository:

    - [sp500_pipeline.py]: [clean_data], [calculate_moving_averages] and
      [save_to_postgres];
    - [dashboard.py]: [sma_crossover_backtest], the period anchoring and the
      rendering of the win-rate metric.

    Conventions.  A date is a day number ([Z]); a float64 cell is an exact
    rational or [NaN] (rounding is not modelled); a pandas [Series] is the
    list of its (index, value) pairs in storage order; a [DataFrame] is the
    list of its rows together with the names of the OHLCV columns it has. *)

From Stdlib Require Import List ZArith QArith Qfield Bool Lia String Sorted Permutation.
Import ListNotations.

(** ** Cells, rows and frames *)

Module Pandas.

(** A float64 cell; [None] is pandas' missing value. *)
Definition cell : Type := option Q.
Definition NaN : cell := None.

Definition notna (c : cell) : bool :=
  match c with Some _ => true | None => false end.

(** One entry of the mask [df[col] >= 0]: comparing [NaN] gives [False]. *)
Definition ge0 (c : cell) : bool :=
  match c with Some q => Qle_bool 0 q | None => false end.

Inductive column : Type := Open | High | Low | Close | Volume.

Definition column_eqb (a b : column) : bool :=
  match a, b with
  | Open, Open | High, High | Low, Low | Close, Close | Volume, Volume => true
  | _, _ => false
  end.

Record row : Type := mkRow
  { date : Z; c_open : cell; c_high : cell; c_low : cell;
    c_close : cell; c_volume : cell }.

Definition get (c : column) (r : row) : cell :=
  match c with
  | Open => c_open r | High => c_high r | Low => c_low r
  | Close => c_close r | Volume => c_volume r
  end.

Record DataFrame : Type := mkFrame
  { columns : list column; rows : list row }.

(** [df.dropna(subset=cols)] *)
Definition dropna (subset : list column) (rs : list row) : list row :=
  filter (fun r => forallb (fun c => notna (get c r)) subset) rs.

(** [df.drop_duplicates(subset=["date"], keep="last")]: a row stays when no
    later row carries its date. *)
Fixpoint drop_duplicates_last (rs : list row) : list row :=
  match rs with
  | [] => []
  | r :: rest =>
      if existsb (fun r' => (date r' =? date r)%Z) rest
      then drop_duplicates_last rest
      else r :: drop_duplicates_last rest
  end.

(** [df.sort_values(by="date")], as an insertion sort.  It is applied to
    frames whose dates are pairwise distinct, where every sorting algorithm
    returns the same frame. *)
Fixpoint insert_by_date (r : row) (rs : list row) : list row :=
  match rs with
  | [] => [r]
  | x :: xs =>
      if (date r <=? date x)%Z then r :: x :: xs
      else x :: insert_by_date r xs
  end.

Definition sort_values (rs : list row) : list row :=
  fold_right insert_by_date [] rs.

(** The greatest label of a list of dates, none on the empty list (SQL's
    [MAX(date)], pandas' [max()]). *)
Definition max_label (ds : list Z) : option Z :=
  fold_left (fun acc d => match acc with
                          | None => Some d
                          | Some m => Some (Z.max m d)
                          end) ds None.

(** [df[df[col] >= 0]] *)
Definition mask_ge0 (c : column) (rs : list row) : list row :=
  filter (fun r => ge0 (get c r)) rs.

End Pandas.

Import Pandas.

(** ** [sp500_pipeline.py] *)

Module Pipeline.

Definition required_cols : list column := [Open; High; Low; Close; Volume].

(** [[col for col in required_cols if col in df.columns]] *)
Definition existing_cols (df : DataFrame) : list column :=
  filter (fun c => existsb (column_eqb c) (columns df)) required_cols.

(** [clean_data]: drop rows with a missing required value, drop duplicated
    dates keeping the last, sort by date, then for every existing column
    keep the rows that are non-negative there.  The dates of the frame are
    valid timestamps, on which [pd.to_datetime] changes nothing. *)
Definition clean_data (df : DataFrame) : DataFrame :=
  let existing := existing_cols df in
  let rs1 := dropna existing (rows df) in
  let rs2 := drop_duplicates_last rs1 in
  let rs3 := sort_values rs2 in
  let rs4 := fold_left (fun acc c => mask_ge0 c acc) existing rs3 in
  {| columns := columns df; rows := rs4 |}.

End Pipeline.

Import Pipeline.

(** ** Series *)

Module SeriesOps.

(** A pandas [Series]: (index label, value) pairs in storage order.  The
    index of a price series is a [DatetimeIndex] of day numbers. *)
Definition Series (A : Type) : Type := list (Z * A).

Definition index {A} (s : Series A) : list Z := map fst s.
Definition values {A} (s : Series A) : list A := map snd s.
Definition empty {A} (s : Series A) : bool :=
  match s with [] => true | _ :: _ => false end.

(** [s.loc[ts_start:ts_end]] on a monotonic [DatetimeIndex]: the labels
    between the two endpoints, both included. *)
Definition loc_slice {A} (ts_start ts_end : Z) (s : Series A) : Series A :=
  filter (fun p => (ts_start <=? fst p)%Z && (fst p <=? ts_end)%Z) s.

(** [s.ffill()]: a missing value takes the last valid one before it. *)
Fixpoint ffill_from (last : cell) (s : Series cell) : Series cell :=
  match s with
  | [] => []
  | (d, Some q) :: rest => (d, Some q) :: ffill_from (Some q) rest
  | (d, None) :: rest => (d, last) :: ffill_from last rest
  end.
Definition ffill (s : Series cell) : Series cell := ffill_from NaN s.

(** [s.dropna()] *)
Fixpoint dropna_series (s : Series cell) : Series Q :=
  match s with
  | [] => []
  | (d, Some q) :: rest => (d, q) :: dropna_series rest
  | (_, None) :: rest => dropna_series rest
  end.

(** *** [rolling(window=w).mean()]

    pandas' default [min_periods] is the window size: the value at [i] is
    the mean of the observations at [max(0, i-w+1) .. i] when at least [w]
    of them are valid (and at least one), and [NaN] otherwise. *)
Definition window (w i : nat) (xs : list cell) : list cell :=
  skipn (S i - w) (firstn (S i) xs).

Definition sum_obs (ws : list cell) : Q :=
  fold_right (fun c acc => match c with Some q => q + acc | None => acc end) 0 ws.

Definition count_obs (ws : list cell) : nat :=
  List.length (filter notna ws).

Definition mean_at (w i : nat) (xs : list cell) : cell :=
  let win := window w i xs in
  let nobs := count_obs win in
  if (w <=? nobs)%nat && (0 <? nobs)%nat
  then Some (sum_obs win / inject_Z (Z.of_nat nobs))
  else NaN.

Definition rolling_mean (w : nat) (xs : list cell) : list cell :=
  map (fun i => mean_at w i xs) (seq 0 (List.length xs)).

End SeriesOps.

Import SeriesOps.

Module PipelineMA.

(** [calculate_moving_averages]: one column [MA_w] per window, present only
    when the frame has a [Close] column. *)
Definition calculate_moving_averages (df : DataFrame) (windows : list nat)
  : list (nat * list cell) :=
  if existsb (column_eqb Close) (columns df)
  then map (fun w => (w, rolling_mean w (map c_close (rows df)))) windows
  else [].

End PipelineMA.

Import PipelineMA.

(** ** The store behind [save_to_postgres] *)

Module Postgres.

Inductive result (A : Type) : Type :=
| Ok (a : A)
| Raise (e : string).
Arguments Ok {A} a.
Arguments Raise {A} e.

(** The database: out of reach (every statement raises [msg]), or reachable
    with the table absent or holding its rows. *)
Inductive db : Type :=
| Unreachable (msg : string)
| Connected (table : option (list row)).

(** [pat in s] on strings. *)
Definition contains (pat s : string) : bool :=
  match String.index 0 pat s with Some _ => true | None => false end.

Definition max_date (rs : list row) : option Z := max_label (map date rs).

(** [SELECT MAX(date) FROM table]: [NULL] on an empty table. *)
Definition select_max_date (s : db) : result (option Z) :=
  match s with
  | Unreachable msg => Raise msg
  | Connected None => Raise "relation sp500_prices does not exist"
  | Connected (Some rs) => Ok (max_date rs)
  end.

(** [df.to_sql(table, if_exists="append")]: creates the table when absent. *)
Definition to_sql (rs : list row) (s : db) : result db :=
  match s with
  | Unreachable msg => Raise msg
  | Connected None => Ok (Connected (Some rs))
  | Connected (Some old) => Ok (Connected (Some (old ++ rs)))
  end.

(** The rows of [df[df["date"] > last_date]]. *)
Definition newer_than (m : Z) (rs : list row) : list row :=
  filter (fun r => (m <? date r)%Z) rs.

(** [save_to_postgres]: ask for the last stored date (a missing table is
    told by the text of the error and means no last date), keep the rows
    after it, and append them unless there is none. *)
Definition save_to_postgres (s : db) (df : list row) : result db :=
  let last_date :=
    match select_max_date s with
    | Ok v => Ok v
    | Raise e =>
        if contains "relation" e && contains "does not exist" e
        then Ok None
        else Raise e
    end in
  match last_date with
  | Raise e => Raise e
  | Ok last =>
      let df_new := match last with
                    | Some m => newer_than m df
                    | None => df
                    end in
      match df_new with
      | [] => Ok s
      | _ :: _ => to_sql df_new s
      end
  end.

End Postgres.

(** ** The vectorbt calls of [dashboard.py]

    vectorbt is a third-party package; its code is not part of the
    repository.  The calls the dashboard makes are modelled from the
    specification of the system (sections 3, 4.1, 4.2, 4.4 and 4.5). *)

Module Vbt.

(** Modelled from the spec: [vbt.MA.run(close, window)] is missing; section
    4.1 gives it as the rolling arithmetic mean over [window] samples,
    aligned with the price series and undefined during warm-up. *)
Definition MA_run (close : Series Q) (w : nat) : Series cell :=
  combine (index close) (rolling_mean w (map Some (values close))).

(** Both cells defined and [a <= b]. *)
Definition cell_le (a b : cell) : bool :=
  match a, b with
  | Some x, Some y => Qle_bool x y
  | _, _ => false
  end.

(** Both cells defined and [a < b]. *)
Definition cell_lt (a b : cell) : bool :=
  match a, b with
  | Some x, Some y => negb (Qle_bool y x)
  | _, _ => false
  end.

(** Modelled from the spec: the crossover test of [ma_crossed_above] is
    missing; section 3 gives it as [fast[i-1] <= slow[i-1]] and
    [fast[i] > slow[i]], false where an indicator is undefined at [i] or
    [i-1].  [prev] is the pair of the sample before, absent at index 0. *)
Fixpoint crossed_above_from (prev : option (cell * cell))
    (fast slow : list cell) : list bool :=
  match fast, slow with
  | f :: fs, s :: ss =>
      match prev with
      | Some (pf, ps) => cell_le pf ps && cell_lt s f
      | None => false
      end :: crossed_above_from (Some (f, s)) fs ss
  | _, _ => []
  end.

(** Modelled from the spec: the crossover test of [ma_crossed_below] is
    missing; section 3 gives it as the symmetric rule,
    [fast[i-1] >= slow[i-1]] and [fast[i] < slow[i]]. *)
Fixpoint crossed_below_from (prev : option (cell * cell))
    (fast slow : list cell) : list bool :=
  match fast, slow with
  | f :: fs, s :: ss =>
      match prev with
      | Some (pf, ps) => cell_le ps pf && cell_lt f s
      | None => false
      end :: crossed_below_from (Some (f, s)) fs ss
  | _, _ => []
  end.

Definition ma_crossed_above (fast slow : Series cell) : Series bool :=
  combine (index fast) (crossed_above_from None (values fast) (values slow)).

Definition ma_crossed_below (fast slow : Series cell) : Series bool :=
  combine (index fast) (crossed_below_from None (values fast) (values slow)).

(** *** The portfolio simulator *)

Inductive position : Type :=
| FLAT
| LONG (quantity entry_price : Q) (entry_date : Z).

Record Trade : Type := mkTrade
  { t_entry_date : Z; t_entry_price : Q;
    t_exit_date : Z; t_exit_price : Q;
    t_quantity : Q; t_pnl : Q; t_return_pct : Q }.

Record sim_state : Type := mkState
  { cash : Q; pos : position;
    trades : list Trade; equity : Series Q }.

(** One date of the replay: its label, close and the two signals. *)
Definition bar : Type := (Z * Q * bool * bool)%type.

Fixpoint bars (close : Series Q) (entries exits : Series bool) : list bar :=
  match close, entries, exits with
  | (d, p) :: c, (_, en) :: es, (_, ex) :: xs => (d, p, en, ex) :: bars c es xs
  | _, _, _ => []
  end.

(** Market value of the holding at price [p]. *)
Definition position_value (ps : position) (p : Q) : Q :=
  match ps with
  | FLAT => 0
  | LONG q _ _ => q * p
  end.

(** Modelled from the spec: the trading rule of [Portfolio.from_signals]
    is missing; section 4.4 gives the transitions.  FLAT with an entry
    buys [cash / price] units with all the cash; LONG with an exit sells
    every unit and closes a trade; anything else leaves the state alone. *)
Definition trade_on (st : sim_state) (b : bar) : sim_state :=
  let '(d, p, en, ex) := b in
  match pos st with
  | FLAT =>
      if en
      then {| cash := 0; pos := LONG (cash st / p) p d;
              trades := trades st; equity := equity st |}
      else st
  | LONG q ep ed =>
      if ex
      then {| cash := cash st + q * p; pos := FLAT;
              trades := trades st ++
                [mkTrade ed ep d p q (q * (p - ep))
                   (q * (p - ep) / (q * ep) * 100)];
              equity := equity st |}
      else st
  end.

(** Modelled from the spec: the equity record of [Portfolio.from_signals]
    is missing; section 3 gives an equity point as cash plus the market
    value of the position at that date's close. *)
Definition step (st : sim_state) (b : bar) : sim_state :=
  let st' := trade_on st b in
  let '(d, p, _, _) := b in
  {| cash := cash st'; pos := pos st'; trades := trades st';
     equity := equity st' ++ [(d, cash st' + position_value (pos st') p)] |}.

Definition init_state (init_cash : Q) : sim_state :=
  {| cash := init_cash; pos := FLAT; trades := []; equity := [] |}.

Definition replay (init_cash : Q) (bs : list bar) : sim_state :=
  fold_left step bs (init_state init_cash).

Record Portfolio : Type := mkPortfolio
  { pf_init_cash : Q; pf_close : Series Q; pf_final : sim_state }.

(** Modelled from the spec: [vbt.Portfolio.from_signals] is missing;
    section 4.4 gives it as the replay of the dates in order from a FLAT
    position holding the initial cash. *)
Definition from_signals (close : Series Q) (entries exits : Series bool)
    (init_cash : Q) : Portfolio :=
  {| pf_init_cash := init_cash; pf_close := close;
     pf_final := replay init_cash (bars close entries exits) |}.

Definition value (pf : Portfolio) : Series Q := equity (pf_final pf).
Definition closed_trades (pf : Portfolio) : list Trade := trades (pf_final pf).

(** *** Statistics *)

Definition is_win (t : Trade) : bool := negb (Qle_bool (t_pnl t) 0).

Definition count_wins (ts : list Trade) : nat :=
  List.length (filter is_win ts).

(** Modelled from the spec: the [Win Rate [%]] entry of [pf.stats()] is
    missing; section 4.5 gives it as winning closed trades over closed
    trades, times 100, and undefined without a closed trade. *)
Definition win_rate (pf : Portfolio) : cell :=
  match closed_trades pf with
  | [] => NaN
  | ts => Some (inject_Z (Z.of_nat (count_wins ts))
                / inject_Z (Z.of_nat (List.length ts)) * 100)
  end.

End Vbt.

(** ** [dashboard.py] *)

Module Dashboard.

Section Backtest.

(** The vectorbt entry points the function calls, and the portfolio
    object they return. *)
Variable PortfolioT : Type.
Variable MA_run : Series Q -> nat -> Series cell.
Variables ma_crossed_above ma_crossed_below :
  Series cell -> Series cell -> Series bool.
Variable from_signals :
  Series Q -> Series bool -> Series bool -> Q -> PortfolioT.

(** Step 1 of [sma_crossover_backtest]: indicators and signals on the
    whole of [close_price]. *)
Definition full_signals (close_price : Series Q) (short_window long_window : nat)
  : Series bool * Series bool :=
  let fast_ma := MA_run close_price short_window in
  let slow_ma := MA_run close_price long_window in
  (ma_crossed_above fast_ma slow_ma, ma_crossed_below fast_ma slow_ma).

(** Step 2: the three series cut to the selected range, or left whole
    when a bound is not given. *)
Definition sliced_inputs (close_price : Series Q) (short_window long_window : nat)
    (start_date end_date : option Z)
  : Series Q * Series bool * Series bool :=
  let '(entries, exits) := full_signals close_price short_window long_window in
  match start_date, end_date with
  | Some ts_start, Some ts_end =>
      (loc_slice ts_start ts_end close_price,
       loc_slice ts_start ts_end entries,
       loc_slice ts_start ts_end exits)
  | _, _ => (close_price, entries, exits)
  end.

(** Step 3: no portfolio on an empty range, else the simulation with
    100 000 of initial cash. *)
Definition sma_crossover_backtest (close_price : Series Q)
    (short_window long_window : nat) (start_date end_date : option Z)
  : option PortfolioT :=
  let '(close_slice, entries_slice, exits_slice) :=
    sliced_inputs close_price short_window long_window start_date end_date in
  if empty close_slice then None
  else Some (from_signals close_slice entries_slice exits_slice 100000).

End Backtest.

Arguments sma_crossover_backtest {PortfolioT}.

(** The function with the vectorbt calls as modelled in [Vbt]. *)
Definition sma_crossover_backtest_vbt :=
  sma_crossover_backtest Vbt.MA_run Vbt.ma_crossed_above Vbt.ma_crossed_below
    Vbt.from_signals.

(** *** Backtest period *)

Inductive period : Type := Last1Year | Last3Years | Last5Years | AllTimeMax.

Definition period_days (p : period) : Z :=
  match p with
  | Last1Year => 365
  | Last3Years => 365 * 3
  | Last5Years => 365 * 5
  | AllTimeMax => 365 * 50
  end.

(** [pd.Timestamp.now().normalize()]: the clock reads seconds, the result
    is the day number of the current day. *)
Definition normalize (now : Z) : Z := (now / 86400)%Z.

(** The pair [(start_date, end_date)] computed at module level. *)
Definition backtest_period (now : Z) (selected_period : period) : Z * Z :=
  let today := normalize now in
  let yesterday := (today - 1)%Z in
  let days_to_subtract := period_days selected_period in
  let start_date := (yesterday - days_to_subtract)%Z in
  let end_date := yesterday in
  (start_date, end_date).

(** *** Result widgets *)

Inductive display : Type :=
| NA
| Num (v : Q) (is_pct : bool)
| Text (s : string).

(** [fmt]: a missing value prints as N/A, a number with two decimals (the
    digits are not modelled). *)
Definition fmt (val : cell) (is_pct : bool) : display :=
  match val with
  | None => NA
  | Some v => Num v is_pct
  end.

Inductive metric : Type := Metric (label : string) (value : display).

(** [trades > 0], false on a missing count. *)
Definition positive (c : cell) : bool :=
  match c with Some t => negb (Qle_bool t 0) | None => false end.

(** The second result column (the status texts without their emoji). *)
Definition win_rate_metric (win_rate trades : cell) : metric :=
  if notna win_rate then Metric "Win Rate" (fmt win_rate true)
  else if positive trades then Metric "Current Status" (Text "Holding")
  else Metric "Current Status" (Text "No Trades").

Inductive page : Type :=
| NoDataAvailable
| NoDataForPeriod
| Results (short_period_warning : bool) (col2 : metric).

Section Page.

Variable PortfolioT : Type.
Variable MA_run : Series Q -> nat -> Series cell.
Variables ma_crossed_above ma_crossed_below :
  Series cell -> Series cell -> Series bool.
Variable from_signals :
  Series Q -> Series bool -> Series bool -> Q -> PortfolioT.
(** [pf.close] and the two entries of [pf.stats()] the page reads. *)
Variable pf_close : PortfolioT -> Series Q.
Variables stats_win_rate stats_total_trades : PortfolioT -> cell.

(** The body of [if run_bt:] down to the four result columns. *)
Definition run_analysis (now : Z) (selected_period : period)
    (loaded : Series cell) (short_window long_window : nat) : page :=
  let '(start_date, end_date) := backtest_period now selected_period in
  let close := dropna_series (ffill loaded) in
  if empty close then NoDataAvailable
  else
    match sma_crossover_backtest MA_run ma_crossed_above ma_crossed_below
            from_signals close short_window long_window
            (Some start_date) (Some end_date) with
    | None => NoDataForPeriod
    | Some pf =>
        if (List.length (pf_close pf) =? 0)%nat then NoDataForPeriod
        else Results (List.length (pf_close pf) <? 20)%nat
               (win_rate_metric (stats_win_rate pf) (stats_total_trades pf))
    end.

End Page.

Arguments run_analysis {PortfolioT}.

End Dashboard.

Import Dashboard.

(** ** Notions used to state the properties *)

Module Props.

Definition date_lt (a b : row) : Prop := (date a < date b)%Z.

(** No missing value in the columns [cols]. *)
Definition complete (cols : list column) (r : row) : bool :=
  forallb (fun c => notna (get c r)) cols.

(** No negative (or missing) value in the columns [cols]. *)
Definition nonneg (cols : list column) (r : row) : bool :=
  forallb (fun c => ge0 (get c r)) cols.

(** Every cleaned row that carries the date of [r], the last input row with
    that date, is [r] itself. *)
Definition keeps_last_occurrence (df : DataFrame) : Prop :=
  forall l1 r l2 o,
    rows df = l1 ++ r :: l2 ->
    (forall r', In r' l2 -> date r' <> date r) ->
    In o (rows (clean_data df)) -> date o = date r -> o = r.


(** The most recent trading day settled before [today]: the greatest date
    of the price index that lies strictly before it. *)
Definition last_settled_day (idx : list Z) (today : Z) : option Z :=
  max_label (filter (fun d => (d <? today)%Z) idx).

(** The end of the analysis window is that day. *)
Definition ends_on_last_settled_day (idx : list Z) (now : Z) (p : period) : Prop :=
  last_settled_day idx (normalize now) = Some (snd (backtest_period now p)).

(** The sum of [f k] for [k] from [lo] to [lo + n - 1]. *)
Fixpoint sum_from (f : nat -> Q) (lo n : nat) : Q :=
  match n with
  | O => 0
  | S n' => f lo + sum_from f (S lo) n'
  end.

End Props.

Import Props.

(** ** Sample data *)

Module Samples.

(** A row with a date and a close, the other columns missing. *)
Definition close_row (d : Z) (c : cell) : row :=
  mkRow d NaN NaN NaN c NaN.

(** Three rows for day 1: closes 5 and 6, then a row whose close is
    missing. *)
Definition dup_frame : DataFrame :=
  {| columns := [Close];
     rows := [close_row 1 (Some 5); close_row 1 (Some 6); close_row 1 NaN] |}.

(** Thursday 30 and Friday 31 October 2025 as day numbers, and a clock
    reading of Monday 3 November 2025, 10:00. *)
Definition week_index : list Z := [20391; 20392]%Z.
Definition monday_morning : Z := (20395 * 86400 + 36000)%Z.

(** Three days at a constant close. *)
Definition flat_prices : Series Q := [(1%Z, 100); (2%Z, 100); (3%Z, 100)].

(** The eight-day scenario of the specification (section 8), on days 1
    to 8. *)
Definition scenario_prices : Series Q :=
  [(1%Z, 100); (2%Z, 102); (3%Z, 101); (4%Z, 105);
   (5%Z, 103); (6%Z, 108); (7%Z, 107); (8%Z, 112)].



End Samples.

Import Samples.

(** ** [export_latest_data] *)

Module CsvExport.

(** [SELECT * FROM table ORDER BY date DESC LIMIT limit], the frame that
    [to_csv] writes.  Rows of equal date come in an order SQL leaves open;
    here it is the reverse of the stable ascending order.  A missing table
    is not caught in this function. *)
Definition export_latest_data (s : Postgres.db) (limit : nat)
  : Postgres.result (list row) :=
  match s with
  | Postgres.Unreachable msg => Postgres.Raise msg
  | Postgres.Connected None =>
      Postgres.Raise "relation sp500_prices does not exist"
  | Postgres.Connected (Some rs) =>
      Postgres.Ok (firstn limit (rev (sort_values rs)))
  end.

End CsvExport.

Import CsvExport.

(** ** The buy-and-hold benchmark of the dashboard *)

Module Benchmark.

(** [s.pct_change()]: no value at the first sample, then the relative change
    from the sample before.  (numpy gives an infinity or NaN after a zero
    close; the closes of an index are positive.) *)
Fixpoint pct_change_from (prev : option Q) (ps : list Q) : list cell :=
  match ps with
  | [] => []
  | p :: rest =>
      match prev with
      | None => NaN
      | Some q => Some (p / q - 1)
      end :: pct_change_from (Some p) rest
  end.

Definition pct_change (ps : list Q) : list cell := pct_change_from None ps.

(** [s.fillna(v)] *)
Definition fillna (v : Q) (cs : list cell) : list Q :=
  map (fun c => match c with Some q => q | None => v end) cs.

(** [s.cumprod()] *)
Fixpoint cumprod_from (acc : Q) (xs : list Q) : list Q :=
  match xs with
  | [] => []
  | x :: rest => (acc * x) :: cumprod_from (acc * x) rest
  end.

Definition cumprod (xs : list Q) : list Q := cumprod_from 1 xs.

(** The column [Benchmark (Buy & Hold)] over the sliced closes. *)
Definition benchmark (close_slice : Series Q) : Series Q :=
  let benchmark_ret := fillna 0 (pct_change (values close_slice)) in
  combine (index close_slice)
    (map (fun x => x * 100000) (cumprod (map (fun r => 1 + r) benchmark_ret))).

End Benchmark.

Import Benchmark.

(** ** Further notions *)

Module MoreProps.

Definition date_ge (a b : row) : Prop := (date b <= date a)%Z.

(** The series without the missing values it starts with. *)
Fixpoint drop_leading_nan (s : Series cell) : Series cell :=
  match s with
  | (_, None) :: rest => drop_leading_nan rest
  | _ => s
  end.

(** A table sorted by strictly increasing date, when there is one. *)
Definition table_sorted (t : option (list row)) : Prop :=
  match t with
  | Some rs => StronglySorted date_lt rs
  | None => True
  end.

End MoreProps.

Import MoreProps.

Module MoreSamples.

(** A stored table of days 1 and 2, and a fetched frame of days 2, 3 and 3
    again. *)
Definition stored_rows : list row :=
  [close_row 1 (Some 10); close_row 2 (Some 11)].
Definition fetched_frame : DataFrame :=
  {| columns := [Close];
     rows := [close_row 2 (Some 11); close_row 3 (Some 12); close_row 3 (Some 13)] |}.

(** A frame with dates only. *)
Definition dates_only_frame : DataFrame :=
  {| columns := [];
     rows := [close_row 2 NaN; close_row 1 NaN; close_row 2 NaN] |}.

(** A loaded series that starts with two missing closes and has a gap. *)
Definition gappy_close : Series cell :=
  [(1%Z, NaN); (2%Z, NaN); (3%Z, Some 100); (4%Z, NaN); (5%Z, Some 102)].

(** A clock reading at noon of day 6. *)
Definition day_six_noon : Z := (6 * 86400 + 43200)%Z.

End MoreSamples.

Import MoreSamples.
(** * Properties *)

(** ** Lists *)

Lemma filter_filter_andb {A} (f g : A -> bool) (l : list A) :
  filter g (filter f l) = filter (fun x => f x && g x) l.
Proof.
  induction l as [|x l IH]; simpl; [reflexivity|].
  destruct (f x); simpl; [destruct (g x)|]; now rewrite IH.
Qed.

Lemma StronglySorted_filter {A} (R : A -> A -> Prop) (f : A -> bool) l :
  StronglySorted R l -> StronglySorted R (filter f l).
Proof.
  induction 1 as [|x l Hs IH Hx]; simpl; [constructor|].
  destruct (f x); [|assumption].
  constructor; [assumption|].
  rewrite Forall_forall in *. intros y Hy.
  apply filter_In in Hy. now apply Hx.
Qed.

Lemma NoDup_map_inj_on {A B} (f : A -> B) (l : list A) a b :
  NoDup (map f l) -> In a l -> In b l -> f a = f b -> a = b.
Proof.
  induction l as [|x l IH]; simpl; [easy|].
  intros Hnd Ha Hb Hab. inversion Hnd as [|? ? Hnotin Hnd']; subst.
  destruct Ha as [->|Ha], Hb as [->|Hb]; auto.
  - exfalso. apply Hnotin. rewrite Hab. now apply in_map.
  - exfalso. apply Hnotin. rewrite <- Hab. now apply in_map.
Qed.

(** ** [clean_data] *)

Lemma mask_fold_filter (cols : list column) (rs : list row) :
  fold_left (fun acc c => mask_ge0 c acc) cols rs = filter (nonneg cols) rs.
Proof.
  revert rs. induction cols as [|c cols IH]; intros rs; simpl.
  - symmetry. apply forallb_filter_id. now apply forallb_forall.
  - rewrite IH. unfold mask_ge0. now rewrite filter_filter_andb.
Qed.

Lemma drop_duplicates_last_In (rs : list row) r :
  In r (drop_duplicates_last rs) -> In r rs.
Proof.
  induction rs as [|x rs IH]; simpl; [easy|].
  destruct (existsb _ rs); simpl; intuition.
Qed.

Lemma drop_duplicates_last_NoDup (rs : list row) :
  NoDup (map date (drop_duplicates_last rs)).
Proof.
  induction rs as [|x rs IH]; simpl; [constructor|].
  destruct (existsb _ rs) eqn:E; [assumption|].
  simpl. constructor; [|assumption].
  intros Hin. apply in_map_iff in Hin. destruct Hin as (y & Hy & Hiny).
  apply drop_duplicates_last_In in Hiny.
  assert (existsb (fun r' => (date r' =? date x)%Z) rs = true) as E'.
  { apply existsb_exists. exists y. split; [assumption|]. now apply Z.eqb_eq. }
  congruence.
Qed.

Lemma drop_duplicates_last_keeps (l1 l2 : list row) r :
  (forall r', In r' l2 -> date r' <> date r) ->
  In r (drop_duplicates_last (l1 ++ r :: l2)).
Proof.
  intros Hlast. induction l1 as [|x l1 IH]; simpl.
  - destruct (existsb _ l2) eqn:E.
    + apply existsb_exists in E. destruct E as (y & Hy & Hd).
      apply Z.eqb_eq in Hd. now apply Hlast in Hy.
    + now left.
  - destruct (existsb _ (l1 ++ r :: l2)); simpl; auto.
Qed.

Lemma insert_by_date_In r (rs : list row) x :
  In x (insert_by_date r rs) <-> x = r \/ In x rs.
Proof.
  induction rs as [|y rs IH]; simpl; [intuition|].
  destruct (date r <=? date y)%Z; simpl; [intuition|].
  rewrite IH. intuition.
Qed.

Lemma insert_by_date_sorted r (rs : list row) :
  StronglySorted date_lt rs ->
  (forall x, In x rs -> date x <> date r) ->
  StronglySorted date_lt (insert_by_date r rs).
Proof.
  induction 1 as [|y rs Hs IH Hy]; intros Hneq; simpl.
  - repeat constructor.
  - rewrite Forall_forall in Hy.
    destruct (date r <=? date y)%Z eqn:E.
    + apply Z.leb_le in E.
      assert (date r < date y)%Z as Hlt.
      { specialize (Hneq y (or_introl eq_refl)). lia. }
      constructor; [now constructor; [|apply Forall_forall]|].
      apply Forall_forall. intros z [<-|Hz]; [exact Hlt|].
      specialize (Hy z Hz). unfold date_lt in *. lia.
    + apply Z.leb_gt in E.
      constructor.
      * apply IH. intros x Hx. apply Hneq. now right.
      * apply Forall_forall. intros z Hz.
        apply insert_by_date_In in Hz. destruct Hz as [->|Hz]; [exact E|now apply Hy].
Qed.

Lemma sort_values_In (rs : list row) x : In x (sort_values rs) <-> In x rs.
Proof.
  induction rs as [|y rs IH]; simpl; [reflexivity|].
  rewrite insert_by_date_In, IH. intuition.
Qed.

Lemma sort_values_sorted (rs : list row) :
  NoDup (map date rs) -> StronglySorted date_lt (sort_values rs).
Proof.
  induction rs as [|y rs IH]; simpl; intros Hnd; [constructor|].
  inversion Hnd as [|? ? Hnotin Hnd']; subst.
  apply insert_by_date_sorted; [now apply IH|].
  intros x Hx Heq. apply (proj1 (sort_values_In rs x)) in Hx.
  apply Hnotin. rewrite <- Heq. now apply in_map.
Qed.

Lemma date_lt_sorted_NoDup (rs : list row) :
  StronglySorted date_lt rs -> NoDup (map date rs).
Proof.
  induction 1 as [|y rs Hs IH Hy]; simpl; constructor; [|assumption].
  rewrite Forall_forall in Hy. intros Hin.
  apply in_map_iff in Hin. destruct Hin as (z & Hz & Hinz).
  specialize (Hy z Hinz). unfold date_lt in Hy. lia.
Qed.

(** The rows of the cleaned frame, as a set. *)
Lemma clean_data_In (df : DataFrame) r :
  In r (rows (clean_data df)) <->
  In r (drop_duplicates_last (dropna (existing_cols df) (rows df)))
  /\ nonneg (existing_cols df) r = true.
Proof.
  unfold clean_data. cbn [rows]. rewrite mask_fold_filter, filter_In, sort_values_In.
  reflexivity.
Qed.

Lemma clean_data_sorted (df : DataFrame) :
  StronglySorted date_lt (rows (clean_data df)).
Proof.
  unfold clean_data. cbn [rows]. rewrite mask_fold_filter.
  apply StronglySorted_filter, sort_values_sorted, drop_duplicates_last_NoDup.
Qed.


Lemma dropna_app (cols : list column) (l1 l2 : list row) :
  dropna cols (l1 ++ l2) = dropna cols l1 ++ dropna cols l2.
Proof. apply filter_app. Qed.

Lemma last_complete_kept (df : DataFrame) l1 r l2 :
  rows df = l1 ++ r :: l2 ->
  complete (existing_cols df) r = true ->
  (forall r', In r' l2 -> complete (existing_cols df) r' = true -> date r' <> date r) ->
  In r (drop_duplicates_last (dropna (existing_cols df) (rows df))).
Proof.
  intros Hrows Hc Hlast. rewrite Hrows, dropna_app.
  unfold dropna at 2. simpl. fold (complete (existing_cols df) r). rewrite Hc.
  apply drop_duplicates_last_keeps.
  intros r' Hr'. apply filter_In in Hr'. destruct Hr' as [Hin Hcr'].
  now apply Hlast.
Qed.


(** C10, as stated, fails: the row with the missing close is the last one of
    day 1, and the cleaned frame carries the close 6 of the row before it. *)
Lemma clean_data_last_duplicate_can_be_dropped :
  ~ keeps_last_occurrence dup_frame.
Proof.
  intros H.
  specialize (H [close_row 1 (Some 5); close_row 1 (Some 6)]
                (close_row 1 NaN) [] (close_row 1 (Some 6)) eq_refl).
  assert (close_row 1 (Some 6) = close_row 1 NaN) as E; [|discriminate E].
  apply H; [intros r' []| |reflexivity].
  vm_compute. now left.
Qed.

(** C10, amended.  Among the rows without a missing value in the existing
    columns, the last one of each date is the only row of that date that can
    reach the output, and it does so exactly when it has no negative value;
    the output has at most one row per date. *)
Theorem clean_data_keeps_last_complete (df : DataFrame) l1 r l2 :
  rows df = l1 ++ r :: l2 ->
  complete (existing_cols df) r = true ->
  (forall r', In r' l2 -> complete (existing_cols df) r' = true ->
              date r' <> date r) ->
  NoDup (map date (rows (clean_data df)))
  /\ (forall o, In o (rows (clean_data df)) -> date o = date r -> o = r)
  /\ (In r (rows (clean_data df)) <-> nonneg (existing_cols df) r = true).
Proof.
  intros Hrows Hc Hlast.
  pose proof (last_complete_kept df l1 r l2 Hrows Hc Hlast) as Hkept.
  split; [apply date_lt_sorted_NoDup, clean_data_sorted|]. split.
  - intros o Ho Hd. apply clean_data_In in Ho. destruct Ho as [Ho _].
    eapply NoDup_map_inj_on; eauto using drop_duplicates_last_NoDup.
  - rewrite clean_data_In. intuition.
Qed.

(** On the sample frame the row with close 6 is the last complete row of
    day 1. *)
Lemma clean_data_keeps_last_complete_witness :
  NoDup (map date (rows (clean_data dup_frame)))
  /\ (forall o, In o (rows (clean_data dup_frame)) ->
        date o = date (close_row 1 (Some 6)) -> o = close_row 1 (Some 6))
  /\ (In (close_row 1 (Some 6)) (rows (clean_data dup_frame)) <->
      nonneg (existing_cols dup_frame) (close_row 1 (Some 6)) = true).
Proof.
  apply (@clean_data_keeps_last_complete dup_frame
           [close_row 1 (Some 5)] (close_row 1 (Some 6)) [close_row 1 NaN]).
  - reflexivity.
  - reflexivity.
  - intros r' [<-|[]] Hc. discriminate Hc.
Defined.

(** ** [save_to_postgres] *)

Section Store.

Import Postgres.

Let pick (acc : option Z) (d : Z) : option Z :=
  match acc with
  | None => Some d
  | Some m => Some (Z.max m d)
  end.

Lemma fold_max_some (ds : list Z) (a : Z) :
  exists m, fold_left pick ds (Some a) = Some m
            /\ (a <= m)%Z
            /\ (forall d, In d ds -> (d <= m)%Z)
            /\ (m = a \/ In m ds).
Proof.
  revert a. induction ds as [|x ds IH]; intros a; simpl.
  - exists a. repeat split; auto; [lia|easy].
  - destruct (IH (Z.max a x)) as (m & Hf & Hle & Hall & Hex).
    exists m. split; [exact Hf|]. split; [lia|]. split.
    + intros d [<-|Hd]; [lia|now apply Hall].
    + destruct Hex as [->|Hin]; [|now right; right].
      destruct (Z.max_spec a x) as [[_ ->]|[_ ->]]; auto.
Qed.

(** [max_label] is empty on the empty list only, and else the greatest
    element. *)
Lemma max_label_spec (ds : list Z) :
  match max_label ds with
  | None => ds = []
  | Some m => (forall d, In d ds -> (d <= m)%Z) /\ In m ds
  end.
Proof.
  destruct ds as [|x ds]; [reflexivity|].
  unfold max_label. simpl.
  destruct (fold_max_some ds x) as (m & Hf & Hle & Hall & Hex).
  fold pick. rewrite Hf. split.
  - intros d [<-|Hd]; [exact Hle|now apply Hall].
  - destruct Hex as [->|Hin]; [now left|now right].
Qed.

Lemma max_date_spec (rs : list row) :
  match max_date rs with
  | None => rs = []
  | Some m => (forall r, In r rs -> (date r <= m)%Z)
              /\ exists r, In r rs /\ date r = m
  end.
Proof.
  unfold max_date. pose proof (max_label_spec (map date rs)) as H.
  destruct (max_label (map date rs)) as [m|].
  - destruct H as [Hall Hin]. split.
    + intros r Hr. apply Hall. now apply in_map.
    + apply in_map_iff in Hin. destruct Hin as (r & Hd & Hr). eauto.
  - now apply map_eq_nil in H.
Qed.

Lemma save_existing_table (old df : list row) (m : Z) :
  max_date old = Some m ->
  save_to_postgres (Connected (Some old)) df
  = Ok (Connected (Some (old ++ newer_than m df))).
Proof.
  intros Hm. unfold save_to_postgres. simpl. rewrite Hm.
  destruct (newer_than m df); [now rewrite app_nil_r|reflexivity].
Qed.

End Store.



(** ** Backtest period *)

Lemma loc_slice_In {A} (s e : Z) (xs : Series A) (p : Z * A) :
  In p (loc_slice s e xs) <-> In p xs /\ (s <= fst p <= e)%Z.
Proof.
  unfold loc_slice. rewrite filter_In, andb_true_iff, !Z.leb_le. reflexivity.
Qed.

Lemma loc_slice_index_In {A} (s e : Z) (xs : Series A) (d : Z) :
  In d (index (loc_slice s e xs)) <-> In d (index xs) /\ (s <= d <= e)%Z.
Proof.
  unfold index. rewrite !in_map_iff. split.
  - intros (p & <- & Hp). apply loc_slice_In in Hp. destruct Hp as [Hp Hr].
    split; [exists p; auto|exact Hr].
  - intros [(p & <- & Hp) Hr]. exists p. split; [reflexivity|].
    apply loc_slice_In. auto.
Qed.

Lemma last_settled_day_spec (idx : list Z) (today d : Z) :
  last_settled_day idx today = Some d ->
  In d idx /\ (d < today)%Z
  /\ forall d', In d' idx -> (d' < today)%Z -> (d' <= d)%Z.
Proof.
  unfold last_settled_day. intros H.
  pose proof (max_label_spec (filter (fun d => (d <? today)%Z) idx)) as Hs.
  rewrite H in Hs. destruct Hs as [Hall Hin].
  apply filter_In in Hin. destruct Hin as [Hin Hlt]. apply Z.ltb_lt in Hlt.
  repeat split; auto.
  intros d' Hd' Hlt'. apply Hall, filter_In. split; [assumption|now apply Z.ltb_lt].
Qed.

(** C6, as stated, fails: on a Monday morning the window ends on the Sunday,
    which is no trading day; the last settled day of the index is the
    Friday. *)
Lemma end_date_can_miss_the_last_trading_day :
  ~ ends_on_last_settled_day week_index monday_morning Last1Year.
Proof. unfold ends_on_last_settled_day. vm_compute. discriminate. Qed.

(** C6, amended.  The window ends on the calendar day before the current
    day, trading day or not, and starts the selected number of days before
    its end; the current day is never in it.  Cut to this window, a price
    series keeps the dates between the two bounds, and when its last settled
    trading day is not before the start, that day is the last date of the
    cut. *)
Theorem backtest_period_ends_yesterday (now : Z) (p : period) :
  let today := normalize now in
  let start_date := fst (backtest_period now p) in
  let end_date := snd (backtest_period now p) in
  (86400 * today <= now < 86400 * (today + 1))%Z
  /\ end_date = (today - 1)%Z
  /\ (end_date < today)%Z
  /\ start_date = (end_date - period_days p)%Z
  /\ (0 < period_days p)%Z
  /\ (forall (close : Series Q) d,
        In d (index (loc_slice start_date end_date close)) <->
        In d (index close) /\ (start_date <= d <= end_date)%Z)
  /\ (forall (close : Series Q) d,
        last_settled_day (index close) today = Some d ->
        (start_date <= d)%Z ->
        In d (index (loc_slice start_date end_date close))
        /\ forall d', In d' (index (loc_slice start_date end_date close)) ->
                      (d' <= d)%Z).
Proof.
  cbv zeta. unfold backtest_period, normalize. cbn [fst snd].
  split. { pose proof (Z.div_mod now 86400). pose proof (Z.mod_pos_bound now 86400). lia. }
  split; [reflexivity|]. split; [lia|]. split; [reflexivity|].
  split; [destruct p; reflexivity|]. split.
  - intros close d. apply loc_slice_index_In.
  - intros close d Hd Hs. apply last_settled_day_spec in Hd.
    destruct Hd as (Hin & Hlt & Hmax). split.
    + apply loc_slice_index_In. split; [assumption|lia].
    + intros d' Hd'. apply loc_slice_index_In in Hd'. destruct Hd' as [Hin' Hr].
      apply Hmax; [assumption|lia].
Qed.

(** ** [sma_crossover_backtest] *)

Lemma loc_slice_nil_iff {A} (s e : Z) (xs : Series A) :
  loc_slice s e xs = [] <-> forall d, In d (index xs) -> ~ (s <= d <= e)%Z.
Proof.
  split.
  - intros H d Hd Hr.
    assert (In d (index (loc_slice s e xs))) as Hin
      by (apply loc_slice_index_In; auto).
    now rewrite H in Hin.
  - intros H. destruct (loc_slice s e xs) as [|p l] eqn:E; [reflexivity|].
    exfalso. apply (H (fst p)).
    + apply (proj1 (loc_slice_index_In s e xs (fst p))).
      rewrite E. now left.
    + assert (In p (loc_slice s e xs)) as Hp by (rewrite E; now left).
      now apply loc_slice_In in Hp.
Qed.

Section BacktestProperties.

Variable PortfolioT : Type.
Variable MA_run : Series Q -> nat -> Series cell.
Variables ma_crossed_above ma_crossed_below :
  Series cell -> Series cell -> Series bool.
Variable from_signals :
  Series Q -> Series bool -> Series bool -> Q -> PortfolioT.
Variable pf_close : PortfolioT -> Series Q.
Variables stats_win_rate stats_total_trades : PortfolioT -> cell.

(** C4.  Whatever the vectorbt calls compute, the backtest over a window
    returns [None] exactly when no date of the series lies in the window,
    and else the portfolio simulated on the three slices; in the first
    case the page shows a no-data message and reads no statistics.  [None]
    is not a portfolio: a run over constant prices returns one with no
    closed trade. *)
Theorem empty_range_is_no_result (close : Series Q) (sw lw : nat) (s e : Z) :
  let run :=
    sma_crossover_backtest MA_run ma_crossed_above ma_crossed_below
      from_signals close sw lw (Some s) (Some e) in
  let signals := full_signals MA_run ma_crossed_above ma_crossed_below close sw lw in
  (run = None <-> forall d, In d (index close) -> ~ (s <= d <= e)%Z)
  /\ (run = None <-> loc_slice s e close = [])
  /\ (forall pf, run = Some pf ->
        pf = from_signals (loc_slice s e close) (loc_slice s e (fst signals))
               (loc_slice s e (snd signals)) 100000)
  /\ (forall now p loaded b m,
        (forall d, In d (index (dropna_series (ffill loaded))) ->
                   ~ (fst (backtest_period now p) <= d
                      <= snd (backtest_period now p))%Z) ->
        run_analysis MA_run ma_crossed_above ma_crossed_below from_signals
          pf_close stats_win_rate stats_total_trades now p loaded sw lw
        <> Results b m)
  /\ (exists pf,
        sma_crossover_backtest_vbt flat_prices 1 2 (Some 1%Z) (Some 3%Z) = Some pf
        /\ Vbt.closed_trades pf = []
        /\ sma_crossover_backtest_vbt flat_prices 1 2 (Some 5%Z) (Some 9%Z) = None).
Proof.
  cbv zeta.
  assert (forall c sw' lw' a b,
            sma_crossover_backtest MA_run ma_crossed_above ma_crossed_below
              from_signals c sw' lw' (Some a) (Some b) = None
            <-> loc_slice a b c = []) as Hnone.
  { intros c sw' lw' a b. unfold sma_crossover_backtest, sliced_inputs, full_signals.
    destruct (loc_slice a b c); simpl; split; congruence. }
  split; [rewrite Hnone; apply loc_slice_nil_iff|].
  split; [apply Hnone|]. split; [|split].
  - unfold sma_crossover_backtest, sliced_inputs, full_signals. cbn [fst snd].
    destruct (empty (loc_slice s e close)); congruence.
  - intros now p loaded b m Hout. unfold run_analysis.
    destruct (backtest_period now p) as [s' e'] eqn:Ep. cbn [fst snd] in Hout.
    destruct (empty (dropna_series (ffill loaded))); [discriminate|].
    apply loc_slice_nil_iff in Hout. apply Hnone with (sw' := sw) (lw' := lw) in Hout.
    rewrite Hout. discriminate.
  - eexists. split; [reflexivity|]. split; reflexivity.
Qed.


End BacktestProperties.


(** ** Win rate *)


Lemma negb_Qle_bool_iff (x y : Q) : negb (Qle_bool x y) = true <-> y < x.
Proof.
  rewrite negb_true_iff. split.
  - intros H. apply Qnot_le_lt. intros Hle. apply Qle_bool_iff in Hle. congruence.
  - intros H. destruct (Qle_bool x y) eqn:E; [|reflexivity].
    apply Qle_bool_iff in E. now apply Qlt_not_le in H.
Qed.



(** ** Crossover signals *)

Lemma cell_le_spec (a b : cell) :
  Vbt.cell_le a b = true <-> exists x y, a = Some x /\ b = Some y /\ x <= y.
Proof.
  destruct a as [x|], b as [y|]; simpl.
  - rewrite Qle_bool_iff. split; [eauto 6|].
    now intros (x' & y' & [= <-] & [= <-] & H).
  - split; [discriminate|]. now intros (x' & y' & _ & H & _).
  - split; [discriminate|]. now intros (x' & y' & H & _).
  - split; [discriminate|]. now intros (x' & y' & H & _).
Qed.

Lemma cell_lt_spec (a b : cell) :
  Vbt.cell_lt a b = true <-> exists x y, a = Some x /\ b = Some y /\ x < y.
Proof.
  destruct a as [x|], b as [y|]; simpl.
  - rewrite negb_Qle_bool_iff. split; [eauto 6|].
    now intros (x' & y' & [= <-] & [= <-] & H).
  - split; [discriminate|]. now intros (x' & y' & _ & H & _).
  - split; [discriminate|]. now intros (x' & y' & H & _).
  - split; [discriminate|]. now intros (x' & y' & H & _).
Qed.

Lemma crossed_above_from_length prev (fast slow : list cell) :
  List.length fast = List.length slow ->
  List.length (Vbt.crossed_above_from prev fast slow) = List.length fast.
Proof.
  revert prev slow. induction fast as [|f fs IH]; intros prev [|s ss] H;
    simpl in *; try congruence. now rewrite IH by congruence.
Qed.

Lemma crossed_below_from_length prev (fast slow : list cell) :
  List.length fast = List.length slow ->
  List.length (Vbt.crossed_below_from prev fast slow) = List.length fast.
Proof.
  revert prev slow. induction fast as [|f fs IH]; intros prev [|s ss] H;
    simpl in *; try congruence. now rewrite IH by congruence.
Qed.

(** The sample at [i + 1] compares the pairs at [i] and at [i + 1]. *)
Lemma crossed_above_from_nth prev (fast slow : list cell) (i : nat) :
  (S i < List.length fast)%nat -> (S i < List.length slow)%nat ->
  nth (S i) (Vbt.crossed_above_from prev fast slow) false
  = Vbt.cell_le (nth i fast NaN) (nth i slow NaN)
    && Vbt.cell_lt (nth (S i) slow NaN) (nth (S i) fast NaN).
Proof.
  revert prev slow i. induction fast as [|f fs IH]; intros prev slow i Hf Hs.
  - simpl in Hf. lia.
  - destruct slow as [|s ss]; [simpl in Hs; lia|].
    simpl in Hf, Hs. cbn [Vbt.crossed_above_from nth].
    destruct i as [|j].
    + destruct fs as [|f' fs]; [simpl in Hf; lia|].
      destruct ss as [|s' ss]; [simpl in Hs; lia|]. reflexivity.
    + apply IH; lia.
Qed.

Lemma crossed_below_from_nth prev (fast slow : list cell) (i : nat) :
  (S i < List.length fast)%nat -> (S i < List.length slow)%nat ->
  nth (S i) (Vbt.crossed_below_from prev fast slow) false
  = Vbt.cell_le (nth i slow NaN) (nth i fast NaN)
    && Vbt.cell_lt (nth (S i) fast NaN) (nth (S i) slow NaN).
Proof.
  revert prev slow i. induction fast as [|f fs IH]; intros prev slow i Hf Hs.
  - simpl in Hf. lia.
  - destruct slow as [|s ss]; [simpl in Hs; lia|].
    simpl in Hf, Hs. cbn [Vbt.crossed_below_from nth].
    destruct i as [|j].
    + destruct fs as [|f' fs]; [simpl in Hf; lia|].
      destruct ss as [|s' ss]; [simpl in Hs; lia|]. reflexivity.
    + apply IH; lia.
Qed.

Lemma crossed_from_first (fast slow : list cell) :
  nth 0 (Vbt.crossed_above_from None fast slow) false = false
  /\ nth 0 (Vbt.crossed_below_from None fast slow) false = false.
Proof. destruct fast, slow; simpl; auto. Qed.

Lemma values_combine {A} (idx : list Z) (l : list A) :
  List.length idx = List.length l -> values (combine idx l) = l.
Proof.
  revert l. induction idx as [|d idx IH]; intros [|x l] H; simpl in *;
    try congruence. f_equal. apply IH. congruence.
Qed.

Lemma index_combine {A} (idx : list Z) (l : list A) :
  List.length idx = List.length l -> index (combine idx l) = idx.
Proof.
  revert l. induction idx as [|d idx IH]; intros [|x l] H; simpl in *;
    try congruence. f_equal. apply IH. congruence.
Qed.

Lemma index_length {A} (s : Series A) : List.length (index s) = List.length s.
Proof. apply length_map. Qed.

Lemma values_length {A} (s : Series A) : List.length (values s) = List.length s.
Proof. apply length_map. Qed.

Lemma aligned_lengths {A B} (a : Series A) (b : Series B) :
  index a = index b -> List.length (values a) = List.length (values b).
Proof.
  intros H. rewrite !values_length, <- !index_length. now rewrite H.
Qed.

Lemma entry_at (fast slow : Series cell) (i : nat) :
  index fast = index slow -> (i < List.length fast)%nat ->
  nth i (values (Vbt.ma_crossed_above fast slow)) false
  = match i with
    | O => false
    | S j => Vbt.cell_le (nth j (values fast) NaN) (nth j (values slow) NaN)
             && Vbt.cell_lt (nth i (values slow) NaN) (nth i (values fast) NaN)
    end.
Proof.
  intros Hidx Hi. pose proof (aligned_lengths fast slow Hidx) as Hlen.
  unfold Vbt.ma_crossed_above. rewrite values_combine.
  - destruct i as [|j]; [apply crossed_from_first|].
    apply crossed_above_from_nth; rewrite ?values_length in *; lia.
  - rewrite crossed_above_from_length by exact Hlen.
    now rewrite index_length, values_length.
Qed.

Lemma exit_at (fast slow : Series cell) (i : nat) :
  index fast = index slow -> (i < List.length fast)%nat ->
  nth i (values (Vbt.ma_crossed_below fast slow)) false
  = match i with
    | O => false
    | S j => Vbt.cell_le (nth j (values slow) NaN) (nth j (values fast) NaN)
             && Vbt.cell_lt (nth i (values fast) NaN) (nth i (values slow) NaN)
    end.
Proof.
  intros Hidx Hi. pose proof (aligned_lengths fast slow Hidx) as Hlen.
  unfold Vbt.ma_crossed_below. rewrite values_combine.
  - destruct i as [|j]; [apply crossed_from_first|].
    apply crossed_below_from_nth; rewrite ?values_length in *; lia.
  - rewrite crossed_below_from_length by exact Hlen.
    now rewrite index_length, values_length.
Qed.

(** C3.  For aligned fast and slow indicators, the entry signal at [i] holds
    exactly when both indicators are defined at [i-1] and [i] with
    [fast[i-1] <= slow[i-1]] and [fast[i] > slow[i]], the exit signal exactly
    when [fast[i-1] >= slow[i-1]] and [fast[i] < slow[i]]; both are false at
    the first sample, where an indicator is undefined at [i] or [i-1], and on
    a tie at [i]; they never hold together. *)
Theorem crossover_signals (fast slow : Series cell) (i : nat) :
  index fast = index slow ->
  (i < List.length fast)%nat ->
  let f k := nth k (values fast) NaN in
  let s k := nth k (values slow) NaN in
  let entry := nth i (values (Vbt.ma_crossed_above fast slow)) false in
  let exit := nth i (values (Vbt.ma_crossed_below fast slow)) false in
  (entry = true <->
     exists j a b c d, i = S j /\ f j = Some a /\ s j = Some b
                       /\ f i = Some c /\ s i = Some d /\ a <= b /\ d < c)
  /\ (exit = true <->
     exists j a b c d, i = S j /\ f j = Some a /\ s j = Some b
                       /\ f i = Some c /\ s i = Some d /\ b <= a /\ c < d)
  /\ (i = 0%nat \/ f i = NaN \/ s i = NaN \/ f (i - 1)%nat = NaN \/ s (i - 1)%nat = NaN ->
      entry = false /\ exit = false)
  /\ ((exists c d, f i = Some c /\ s i = Some d /\ c == d) ->
      entry = false /\ exit = false)
  /\ ~ (entry = true /\ exit = true).
Proof.
  intros Hidx Hi. cbv zeta.
  rewrite (entry_at fast slow i Hidx Hi), (exit_at fast slow i Hidx Hi).
  destruct i as [|j].
  { split; [|split; [|split; [|split]]]; try (intros; split; reflexivity).
    - split; [discriminate|]. intros (j & a & b & c & d & H & _). discriminate H.
    - split; [discriminate|]. intros (j & a & b & c & d & H & _). discriminate H.
    - intros [H _]. discriminate H. }
  replace (S j - 1)%nat with j by lia.
  set (fj := nth j (values fast) NaN). set (sj := nth j (values slow) NaN).
  set (fi := nth (S j) (values fast) NaN). set (si := nth (S j) (values slow) NaN).
  assert (Vbt.cell_le fj sj && Vbt.cell_lt si fi = true <->
          exists a b c d, fj = Some a /\ sj = Some b /\ fi = Some c /\ si = Some d
                          /\ a <= b /\ d < c) as Hen.
  { rewrite andb_true_iff, cell_le_spec, cell_lt_spec. split.
    - intros [(a & b & Ha & Hb & Hab) (d & c & Hd & Hc & Hdc)]. eauto 10.
    - intros (a & b & c & d & Ha & Hb & Hc & Hd & Hab & Hdc). eauto 10. }
  assert (Vbt.cell_le sj fj && Vbt.cell_lt fi si = true <->
          exists a b c d, fj = Some a /\ sj = Some b /\ fi = Some c /\ si = Some d
                          /\ b <= a /\ c < d) as Hex.
  { rewrite andb_true_iff, cell_le_spec, cell_lt_spec. split.
    - intros [(b & a & Hb & Ha & Hba) (c & d & Hc & Hd & Hcd)]. eauto 10.
    - intros (a & b & c & d & Ha & Hb & Hc & Hd & Hba & Hcd). eauto 10. }
  split; [|split; [|split; [|split]]].
  - rewrite Hen. split.
    + intros (a & b & c & d & H). exists j, a, b, c, d. tauto.
    + intros (j' & a & b & c & d & [= <-] & H). eauto 10.
  - rewrite Hex. split.
    + intros (a & b & c & d & H). exists j, a, b, c, d. tauto.
    + intros (j' & a & b & c & d & [= <-] & H). eauto 10.
  - intros H. split.
    + apply not_true_is_false. rewrite Hen.
      intros (a & b & c & d & Ha & Hb & Hc & Hd & _).
      destruct H as [H|[H|[H|[H|H]]]]; try discriminate H; unfold NaN in H; congruence.
    + apply not_true_is_false. rewrite Hex.
      intros (a & b & c & d & Ha & Hb & Hc & Hd & _).
      destruct H as [H|[H|[H|[H|H]]]]; try discriminate H; unfold NaN in H; congruence.
  - intros (c & d & Hc & Hd & Hcd). split.
    + apply not_true_is_false. rewrite Hen.
      intros (a & b & c' & d' & _ & _ & Hc' & Hd' & _ & Hlt).
      rewrite Hc in Hc'. rewrite Hd in Hd'. injection Hc' as <-. injection Hd' as <-.
      rewrite Hcd in Hlt. now apply Qlt_irrefl in Hlt.
    + apply not_true_is_false. rewrite Hex.
      intros (a & b & c' & d' & _ & _ & Hc' & Hd' & _ & Hlt).
      rewrite Hc in Hc'. rewrite Hd in Hd'. injection Hc' as <-. injection Hd' as <-.
      rewrite Hcd in Hlt. now apply Qlt_irrefl in Hlt.
  - rewrite Hen, Hex.
    intros [(a & b & c & d & _ & _ & Hc & Hd & _ & Hdc)
            (a' & b' & c' & d' & _ & _ & Hc' & Hd' & _ & Hcd)].
    rewrite Hc in Hc'. rewrite Hd in Hd'. injection Hc' as <-. injection Hd' as <-.
    apply (Qlt_irrefl c). now apply Qlt_trans with d.
Qed.

(** ** Moving averages *)

Lemma rolling_mean_length (w : nat) (xs : list cell) :
  List.length (rolling_mean w xs) = List.length xs.
Proof. unfold rolling_mean. now rewrite length_map, length_seq. Qed.

Lemma rolling_mean_nth (w : nat) (xs : list cell) (i : nat) :
  (i < List.length xs)%nat -> nth i (rolling_mean w xs) NaN = mean_at w i xs.
Proof.
  intros Hi. unfold rolling_mean.
  rewrite nth_indep with (d' := mean_at w 0 xs)
    by (now rewrite length_map, length_seq).
  rewrite (map_nth (fun i => mean_at w i xs)), seq_nth by exact Hi. reflexivity.
Qed.

Lemma skipn_cons_nth {A} (d : A) (xs : list A) (a : nat) :
  (a < List.length xs)%nat -> skipn a xs = nth a xs d :: skipn (S a) xs.
Proof.
  revert a. induction xs as [|x xs IH]; intros a Ha; simpl in Ha; [lia|].
  destruct a as [|a]; [reflexivity|]. cbn [skipn nth]. apply IH. lia.
Qed.

Lemma sum_obs_run (xs : list Q) (a n : nat) :
  (a + n <= List.length xs)%nat ->
  sum_obs (map Some (firstn n (skipn a xs)))
  = sum_from (fun k => nth k xs 0) a n.
Proof.
  revert a. induction n as [|n IH]; intros a H; [reflexivity|].
  rewrite (skipn_cons_nth 0 xs a) by lia. cbn [firstn map sum_obs fold_right sum_from].
  f_equal. apply IH. lia.
Qed.

Lemma count_obs_valid (l : list Q) : count_obs (map Some l) = List.length l.
Proof.
  unfold count_obs. induction l as [|x l IH]; simpl; [reflexivity|]. now rewrite IH.
Qed.

Lemma window_valid (w i : nat) (xs : list Q) :
  window w i (map Some xs) = map Some (firstn (S i - (S i - w)) (skipn (S i - w) xs)).
Proof.
  unfold window. now rewrite firstn_map, skipn_map, skipn_firstn_comm.
Qed.

(** On a series without missing values: the mean of the last [w] closes once
    [w] of them are there, no value before. *)
Lemma rolling_mean_valid (xs : list Q) (w i : nat) :
  (1 <= w)%nat -> (i < List.length xs)%nat ->
  nth i (rolling_mean w (map Some xs)) NaN
  = if (w <=? S i)%nat
    then Some (sum_from (fun k => nth k xs 0) (S i - w) w / inject_Z (Z.of_nat w))
    else NaN.
Proof.
  intros Hw Hi. rewrite rolling_mean_nth by (now rewrite length_map).
  unfold mean_at. rewrite window_valid, count_obs_valid.
  rewrite length_firstn, length_skipn.
  destruct (w <=? S i)%nat eqn:E.
  - apply Nat.leb_le in E.
    replace (S i - (S i - w))%nat with w by lia.
    replace (Nat.min w (List.length xs - (S i - w))) with w by lia.
    rewrite Nat.leb_refl. replace (0 <? w)%nat with true by (symmetry; apply Nat.ltb_lt; lia).
    cbn [andb]. rewrite sum_obs_run by lia. reflexivity.
  - apply Nat.leb_gt in E.
    replace (S i - w)%nat with 0%nat by lia.
    replace (Nat.min (S i - 0) (List.length xs - 0)) with (S i) by lia.
    replace (w <=? S i)%nat with false by (symmetry; apply Nat.leb_gt; lia).
    reflexivity.
Qed.

Lemma MA_run_values (close : Series Q) (w : nat) :
  values (Vbt.MA_run close w) = rolling_mean w (map Some (values close)).
Proof.
  unfold Vbt.MA_run. apply values_combine.
  now rewrite rolling_mean_length, length_map, index_length, values_length.
Qed.

Lemma MA_run_index (close : Series Q) (w : nat) :
  index (Vbt.MA_run close w) = index close.
Proof.
  unfold Vbt.MA_run. apply index_combine.
  now rewrite rolling_mean_length, length_map, index_length, values_length.
Qed.

(** C2.  For a window [w >= 1] the moving average is aligned with the price
    series; its value at [i] is the arithmetic mean of the prices at
    [i-w+1 .. i] when [i >= w-1] and is undefined, not zero, when [i < w-1].
    The backtest cuts to the selected range the signals computed from the
    moving averages of the whole history, and the pipeline's column [MA_w]
    over the same closes holds the same values. *)
Theorem moving_average_is_window_mean (close : Series Q) (w i : nat) :
  (1 <= w)%nat -> (i < List.length close)%nat ->
  let ma := Vbt.MA_run close w in
  let price k := nth k (values close) 0 in
  index ma = index close
  /\ ((w - 1 <= i)%nat ->
      exists m, nth i (values ma) NaN = Some m
                /\ m == sum_from price (i + 1 - w) w / inject_Z (Z.of_nat w))
  /\ ((i < w - 1)%nat ->
      nth i (values ma) NaN = NaN /\ nth i (values ma) NaN <> Some 0)
  /\ (forall sw lw s e,
        sliced_inputs Vbt.MA_run Vbt.ma_crossed_above Vbt.ma_crossed_below
          close sw lw (Some s) (Some e)
        = (loc_slice s e close,
           loc_slice s e (Vbt.ma_crossed_above (Vbt.MA_run close sw) (Vbt.MA_run close lw)),
           loc_slice s e (Vbt.ma_crossed_below (Vbt.MA_run close sw) (Vbt.MA_run close lw))))
  /\ (forall df windows,
        existsb (column_eqb Close) (columns df) = true ->
        map c_close (rows df) = map Some (values close) ->
        In w windows ->
        In (w, values ma) (calculate_moving_averages df windows)).
Proof.
  intros Hw Hi. cbv zeta.
  assert (nth i (values (Vbt.MA_run close w)) NaN
          = if (w <=? S i)%nat
            then Some (sum_from (fun k => nth k (values close) 0) (S i - w) w
                       / inject_Z (Z.of_nat w))
            else NaN) as Hnth.
  { rewrite MA_run_values. apply rolling_mean_valid; [exact Hw|].
    now rewrite values_length. }
  split; [apply MA_run_index|]. split; [|split; [|split]].
  - intros Hge. replace (w <=? S i)%nat with true in Hnth
      by (symmetry; apply Nat.leb_le; lia).
    eexists. split; [exact Hnth|]. replace (i + 1 - w)%nat with (S i - w)%nat by lia.
    reflexivity.
  - intros Hlt. replace (w <=? S i)%nat with false in Hnth
      by (symmetry; apply Nat.leb_gt; lia).
    rewrite Hnth. split; [reflexivity|discriminate].
  - reflexivity.
  - intros df windows Hcol Hclose Hin. unfold calculate_moving_averages.
    rewrite Hcol, Hclose, MA_run_values.
    apply in_map_iff. exists w. split; [reflexivity|exact Hin].
Qed.

(** The scenario with window 4: a mean at index 5, no value at index 2. *)
Lemma moving_average_is_window_mean_witness :
  (exists m, nth 5 (values (Vbt.MA_run scenario_prices 4)) NaN = Some m
             /\ m == sum_from (fun k => nth k (values scenario_prices) 0) 2 4
                     / inject_Z 4)
  /\ nth 2 (values (Vbt.MA_run scenario_prices 4)) NaN = NaN.
Proof.
  split.
  - destruct (moving_average_is_window_mean scenario_prices 4 5) as (_ & H & _).
    + simpl. lia.
    + simpl. lia.
    + apply H. simpl. lia.
  - destruct (moving_average_is_window_mean scenario_prices 4 2) as (_ & _ & H & _).
    + simpl. lia.
    + simpl. lia.
    + apply H. simpl. lia.
Defined.

(** The scenario with windows 1 and 2: an entry and no exit at index 3. *)
Lemma crossover_signals_witness :
  nth 3 (values (Vbt.ma_crossed_above (Vbt.MA_run scenario_prices 1)
                   (Vbt.MA_run scenario_prices 2))) false = true
  /\ nth 3 (values (Vbt.ma_crossed_below (Vbt.MA_run scenario_prices 1)
                      (Vbt.MA_run scenario_prices 2))) false = false.
Proof.
  destruct (crossover_signals (Vbt.MA_run scenario_prices 1)
              (Vbt.MA_run scenario_prices 2) 3) as (Hen & _ & _ & _ & Hnot).
  - reflexivity.
  - simpl. lia.
  - assert (nth 3 (values (Vbt.ma_crossed_above (Vbt.MA_run scenario_prices 1)
                             (Vbt.MA_run scenario_prices 2))) false = true) as E.
    { apply Hen. exists 2%nat. do 4 eexists.
      repeat split; try (vm_compute; reflexivity); vm_compute; discriminate. }
    split; [exact E|].
    apply not_true_is_false. intros X. apply Hnot. split; assumption.
Defined.

(** ** The portfolio replay *)














(** ** The slices handed to the simulator are aligned *)

Lemma loc_slice_index {A} (s e : Z) (xs : Series A) :
  index (loc_slice s e xs)
  = filter (fun d => (s <=? d)%Z && (d <=? e)%Z) (index xs).
Proof.
  induction xs as [|[d x] xs IH]; simpl; [reflexivity|].
  destruct ((s <=? d)%Z && (d <=? e)%Z); simpl; now rewrite IH.
Qed.

Lemma ma_crossed_index (fast slow : Series cell) :
  index fast = index slow ->
  index (Vbt.ma_crossed_above fast slow) = index fast
  /\ index (Vbt.ma_crossed_below fast slow) = index fast.
Proof.
  intros H. pose proof (aligned_lengths fast slow H) as Hlen.
  unfold Vbt.ma_crossed_above, Vbt.ma_crossed_below. split; apply index_combine.
  - now rewrite crossed_above_from_length, index_length, values_length.
  - now rewrite crossed_below_from_length, index_length, values_length.
Qed.

(** Whatever the windows and the bounds, the signals that
    [sma_crossover_backtest] passes on carry the dates of the prices it
    passes on: the replay sees one bar per date of the range. *)
Lemma sliced_inputs_aligned (close : Series Q) (sw lw : nat) (sd ed : option Z) :
  let '(cs, es, xs) :=
    sliced_inputs Vbt.MA_run Vbt.ma_crossed_above Vbt.ma_crossed_below
      close sw lw sd ed in
  index es = index cs /\ index xs = index cs.
Proof.
  unfold sliced_inputs, full_signals.
  destruct (ma_crossed_index (Vbt.MA_run close sw) (Vbt.MA_run close lw)) as [Ha Hb].
  { now rewrite !MA_run_index. }
  rewrite MA_run_index in Ha, Hb.
  destruct sd as [s|], ed as [e|]; try (split; assumption).
  rewrite !loc_slice_index, Ha, Hb. split; reflexivity.
Qed.

(** * Further properties of the code *)

(** ** Repeated and chained runs of [save_to_postgres] *)

Lemma StronglySorted_app {A} (R : A -> A -> Prop) (l1 l2 : list A) :
  StronglySorted R l1 -> StronglySorted R l2 ->
  (forall a b, In a l1 -> In b l2 -> R a b) ->
  StronglySorted R (l1 ++ l2).
Proof.
  induction 1 as [|x l1 Hs IH Hx]; intros H2 Hcross; simpl; [assumption|].
  constructor.
  - apply IH; [assumption|]. intros a b Ha Hb. apply Hcross; [now right|assumption].
  - apply Forall_app. split; [assumption|].
    apply Forall_forall. intros b Hb. apply Hcross; [now left|assumption].
Qed.

Lemma StronglySorted_app_inv {A} (R : A -> A -> Prop) (l1 l2 : list A) :
  StronglySorted R (l1 ++ l2) ->
  StronglySorted R l1 /\ StronglySorted R l2
  /\ forall a b, In a l1 -> In b l2 -> R a b.
Proof.
  induction l1 as [|x l1 IH]; simpl; intros H.
  - repeat split; [constructor|assumption|easy].
  - inversion H as [|? ? Hs Hx]; subst. destruct (IH Hs) as (H1 & H2 & Hc).
    apply Forall_app in Hx. destruct Hx as [Hx1 Hx2].
    rewrite Forall_forall in Hx2.
    repeat split; [now constructor|assumption|].
    intros a b [<-|Ha] Hb; auto.
Qed.

Lemma newer_than_nil (m : Z) (df : list row) :
  (forall r, In r df -> (date r <= m)%Z) -> Postgres.newer_than m df = [].
Proof.
  intros H. unfold Postgres.newer_than.
  induction df as [|r df IH]; simpl; [reflexivity|].
  replace (m <? date r)%Z with false
    by (symmetry; apply Z.ltb_ge; apply H; now left).
  apply IH. intros x Hx. apply H. now right.
Qed.

(** A frame no row of which is dated after the stored maximum leaves the
    store as it is. *)
Lemma save_nothing_new (tbl df : list row) (m : Z) :
  Postgres.max_date tbl = Some m ->
  (forall r, In r df -> (date r <= m)%Z) ->
  Postgres.save_to_postgres (Postgres.Connected (Some tbl)) df
  = Postgres.Ok (Postgres.Connected (Some tbl)).
Proof.
  intros Hm Hall. unfold Postgres.save_to_postgres. simpl.
  rewrite Hm, newer_than_nil by exact Hall. reflexivity.
Qed.

Lemma save_all_stored (r : row) (df : list row) :
  Postgres.save_to_postgres (Postgres.Connected (Some (r :: df))) (r :: df)
  = Postgres.Ok (Postgres.Connected (Some (r :: df))).
Proof.
  pose proof (max_date_spec (r :: df)) as Hs.
  destruct (Postgres.max_date (r :: df)) as [m|] eqn:E; [|discriminate Hs].
  destruct Hs as [Hall _]. now apply save_nothing_new with m.
Qed.

(** X1.  A run that succeeds leaves a store on which the same frame writes
    nothing more: saving is idempotent, whatever the store and the frame. *)
Theorem save_to_postgres_idempotent (s s' : Postgres.db) (df : list row) :
  Postgres.save_to_postgres s df = Postgres.Ok s' ->
  Postgres.save_to_postgres s' df = Postgres.Ok s'.
Proof.
  destruct s as [msg|[old|]].
  - unfold Postgres.save_to_postgres at 1. simpl.
    destruct (Postgres.contains "relation" msg
              && Postgres.contains "does not exist" msg) eqn:E.
    + destruct df as [|r df]; [|discriminate].
      intros [= <-]. unfold Postgres.save_to_postgres. simpl. now rewrite E.
    + discriminate.
  - pose proof (max_date_spec old) as Hs.
    destruct (Postgres.max_date old) as [m|] eqn:E.
    + destruct Hs as [Hold (x & Hx & Hxm)].
      rewrite (save_existing_table old df m E). intros [= <-].
      pose proof (max_date_spec (old ++ Postgres.newer_than m df)) as Hs'.
      destruct (Postgres.max_date (old ++ Postgres.newer_than m df)) as [m'|] eqn:E'.
      * destruct Hs' as [Hall _]. apply save_nothing_new with m'; [exact E'|].
        intros r Hr. destruct (Z.ltb_spec m (date r)) as [Hlt|Hge].
        -- apply Hall, in_or_app. right. apply filter_In. split; [assumption|].
           now apply Z.ltb_lt.
        -- assert (date x <= m')%Z by (apply Hall, in_or_app; now left). lia.
      * exfalso. destruct old; [contradiction|discriminate Hs'].
    + subst old. destruct df as [|r df].
      * intros [= <-]. reflexivity.
      * unfold Postgres.save_to_postgres at 1. simpl. intros [= <-].
        apply save_all_stored.
  - destruct df as [|r df].
    + intros [= <-]. reflexivity.
    + unfold Postgres.save_to_postgres at 1. simpl. intros [= <-].
      apply save_all_stored.
Qed.

(** Saving the sample frame a second time changes nothing. *)
Lemma save_to_postgres_idempotent_witness :
  Postgres.save_to_postgres
    (Postgres.Connected (Some (stored_rows ++ [close_row 3 (Some 13)])))
    (rows (clean_data fetched_frame))
  = Postgres.Ok (Postgres.Connected (Some (stored_rows ++ [close_row 3 (Some 13)]))).
Proof.
  apply (save_to_postgres_idempotent (Postgres.Connected (Some stored_rows))).
  reflexivity.
Defined.

(** X2.  Fed with the frame [clean_data] returns, a table sorted by strictly
    increasing date (or no table) stays so: the run succeeds, the stored rows
    are kept in place, and what is appended are cleaned rows. *)
Theorem cleaned_frame_keeps_table_sorted (t : option (list row)) (df : DataFrame) :
  table_sorted t ->
  exists t',
    Postgres.save_to_postgres (Postgres.Connected t) (rows (clean_data df))
    = Postgres.Ok (Postgres.Connected t')
    /\ table_sorted t'
    /\ (forall old, t = Some old ->
          exists added, t' = Some (old ++ added)
                        /\ forall r, In r added -> In r (rows (clean_data df))).
Proof.
  intros Hsorted. pose proof (clean_data_sorted df) as Hclean.
  set (cleaned := rows (clean_data df)) in *.
  destruct t as [old|].
  - pose proof (max_date_spec old) as Hs.
    destruct (Postgres.max_date old) as [m|] eqn:E.
    + destruct Hs as [Hold _].
      exists (Some (old ++ Postgres.newer_than m cleaned)).
      split; [now apply save_existing_table|]. split.
      * simpl. apply StronglySorted_app; [exact Hsorted| |].
        -- now apply StronglySorted_filter.
        -- intros a b Ha Hb. apply filter_In in Hb. destruct Hb as [_ Hb].
           apply Z.ltb_lt in Hb. specialize (Hold a Ha). unfold date_lt. lia.
      * intros old' [= <-]. eexists. split; [reflexivity|].
        intros r Hr. now apply filter_In in Hr.
    + subst old. destruct cleaned as [|r l] eqn:Ec.
      * exists (Some []). split; [reflexivity|]. split; [constructor|].
        intros old' [= <-]. exists []. split; [reflexivity|easy].
      * exists (Some (r :: l)). split; [reflexivity|]. split; [exact Hclean|].
        intros old' [= <-]. exists (r :: l). split; [reflexivity|auto].
  - destruct cleaned as [|r l] eqn:Ec.
    + exists None. split; [reflexivity|]. split; [exact I|discriminate].
    + exists (Some (r :: l)). split; [reflexivity|]. split; [exact Hclean|discriminate].
Qed.

(** The stored days 1 and 2 followed by the cleaned day 3. *)
Lemma cleaned_frame_keeps_table_sorted_witness :
  exists t',
    Postgres.save_to_postgres (Postgres.Connected (Some stored_rows))
      (rows (clean_data fetched_frame))
    = Postgres.Ok (Postgres.Connected t')
    /\ table_sorted t'
    /\ (forall old, Some stored_rows = Some old ->
          exists added, t' = Some (old ++ added)
                        /\ forall r, In r added -> In r (rows (clean_data fetched_frame))).
Proof.
  apply (cleaned_frame_keeps_table_sorted (Some stored_rows) fetched_frame).
  simpl. repeat constructor.
Defined.

(** ** Cleaning a cleaned frame *)


Lemma sort_values_id (rs : list row) :
  StronglySorted date_lt rs -> sort_values rs = rs.
Proof.
  induction 1 as [|x rs Hs IH Hx]; [reflexivity|].
  simpl. fold (sort_values rs). rewrite IH.
  destruct rs as [|y rs]; [reflexivity|]. simpl.
  inversion Hx as [|? ? Hxy _]; subst. unfold date_lt in Hxy.
  replace (date x <=? date y)%Z with true by (symmetry; apply Z.leb_le; lia).
  reflexivity.
Qed.




(** ** Moving averages of a cleaned frame *)






(** ** Forward fill of the loaded closes *)

Lemma ffill_leading (s : Series cell) :
  dropna_series (ffill s) = dropna_series (ffill (drop_leading_nan s)).
Proof.
  unfold ffill. induction s as [|[d [q|]] s IH]; simpl; auto.
Qed.

Lemma drop_leading_nan_head (s : Series cell) :
  drop_leading_nan s = []
  \/ exists d q (rest : Series cell), drop_leading_nan s = (d, Some q) :: rest.
Proof.
  induction s as [|[d [q|]] s IH]; simpl; eauto.
Qed.

Lemma drop_leading_nan_nil (s : Series cell) :
  drop_leading_nan s = [] <-> forall p, In p s -> snd p = NaN.
Proof.
  induction s as [|[d [q|]] s IH]; simpl.
  - split; [intros _ p []|reflexivity].
  - split; [discriminate|]. intros H. specialize (H (d, Some q) (or_introl eq_refl)).
    discriminate H.
  - rewrite IH. split.
    + intros H p [<-|Hp]; [reflexivity|now apply H].
    + intros H p Hp. apply H. now right.
Qed.

Lemma drop_leading_nan_incl (s : Series cell) (x : Z * cell) :
  In x (drop_leading_nan s) -> In x s.
Proof.
  induction s as [|[d [q|]] s IH]; simpl; auto.
Qed.

(** After a valid value [v], every date is kept; a valid close stands, a
    missing one repeats the value before it. *)
Lemma ffill_from_valid (v : Q) (t : Series cell) :
  index (dropna_series (ffill_from (Some v) t)) = index t
  /\ forall i, (i < List.length t)%nat ->
       nth i (values (dropna_series (ffill_from (Some v) t))) 0
       = match nth i (values t) NaN with
         | Some q => q
         | None => match i with
                   | O => v
                   | S j => nth j (values (dropna_series (ffill_from (Some v) t))) 0
                   end
         end.
Proof.
  revert v. induction t as [|[d c] t IH]; intros v.
  - split; [reflexivity|]. simpl. intros i Hi. lia.
  - destruct c as [q|]; simpl.
    + destruct (IH q) as [Hidx Hval]. split; [now rewrite Hidx|].
      intros [|i] Hi; [reflexivity|]. rewrite Hval by lia.
      destruct (nth i (values t) NaN); [reflexivity|]. now destruct i.
    + destruct (IH v) as [Hidx Hval]. split; [now rewrite Hidx|].
      intros [|i] Hi; [reflexivity|]. rewrite Hval by lia.
      destruct (nth i (values t) NaN); [reflexivity|]. now destruct i.
Qed.

(** The dates that survive are those from the first valid close on. *)
Lemma ffill_dropna_index (s : Series cell) :
  index (dropna_series (ffill s)) = index (drop_leading_nan s).
Proof.
  rewrite ffill_leading.
  destruct (drop_leading_nan_head s) as [E|(d & q & rest & E)]; rewrite E.
  - reflexivity.
  - unfold ffill. cbn [ffill_from dropna_series].
    destruct (ffill_from_valid q rest) as [Hidx _]. simpl. now rewrite Hidx.
Qed.

(** X5.  [close.ffill().dropna()] drops the dates before the first valid
    close and no other: from there on every date is kept, a valid close
    stands as it is and a missing one repeats the close of the date before.
    The result is empty exactly when no close is valid. *)
Theorem ffill_dropna_keeps_dates_from_first_valid (s : Series cell) :
  let close := dropna_series (ffill s) in
  let kept := drop_leading_nan s in
  index close = index kept
  /\ (forall i, (i < List.length kept)%nat ->
        match nth i (values kept) NaN with
        | Some q => nth i (values close) 0 = q
        | None => (0 < i)%nat
                  /\ nth i (values close) 0 = nth (i - 1) (values close) 0
        end)
  /\ (empty close = true <-> forall p, In p s -> snd p = NaN).
Proof.
  cbv zeta. rewrite ffill_leading.
  destruct (drop_leading_nan_head s) as [E|(d & q & rest & E)].
  - rewrite E. split; [reflexivity|]. split; [simpl; intros i Hi; lia|].
    split; [intros _; now apply drop_leading_nan_nil|reflexivity].
  - destruct (drop_leading_nan_nil s) as [_ Hnil]. rewrite E.
    unfold ffill. cbn [ffill_from dropna_series].
    destruct (ffill_from_valid q rest) as [Hidx Hval].
    split; [simpl; now rewrite Hidx|]. split.
    + intros [|i] Hi; [reflexivity|]. simpl in Hi. cbn [values map snd nth].
      fold (values rest). fold (values (dropna_series (ffill_from (Some q) rest))).
      rewrite Hval by lia.
      change (map snd rest) with (values rest).
      destruct (nth i (values rest) NaN) as [x|]; cbv beta iota; [reflexivity|].
      split; [lia|]. replace (S i - 1)%nat with i by lia. reflexivity.
    + simpl. split; [discriminate|]. intros H. apply Hnil in H. congruence.
Qed.

(** ** The buy-and-hold benchmark *)

Lemma cumprod_from_length (acc : Q) (xs : list Q) :
  List.length (cumprod_from acc xs) = List.length xs.
Proof.
  revert acc. induction xs as [|x xs IH]; intros acc; simpl; [reflexivity|].
  now rewrite IH.
Qed.

Lemma pct_change_from_length (prev : option Q) (ps : list Q) :
  List.length (pct_change_from prev ps) = List.length ps.
Proof.
  revert prev. induction ps as [|p ps IH]; intros prev; simpl; [reflexivity|].
  now rewrite IH.
Qed.

Lemma nth_map_in_range {A B} (f : A -> B) (l : list A) (a : A) (b : B) (i : nat) :
  (i < List.length l)%nat -> nth i (map f l) b = f (nth i l a).
Proof.
  intros Hi. rewrite nth_indep with (d' := f a) by (now rewrite length_map).
  apply map_nth.
Qed.

(** The running product of the growth factors after a close [q]: the close
    of the date over [q], scaled by the product so far. *)
Lemma cumprod_from_chain (ps : list Q) (q acc : Q) (i : nat) :
  ~ q == 0 -> (forall p, In p ps -> ~ p == 0) ->
  (i < List.length ps)%nat ->
  nth i (cumprod_from acc
           (map (fun r => 1 + r) (fillna 0 (pct_change_from (Some q) ps)))) 0
  == acc * (nth i ps 0 / q).
Proof.
  revert q acc i. induction ps as [|p ps IH]; intros q acc i Hq Hps Hi.
  - simpl in Hi. lia.
  - assert (~ p == 0) as Hp by (apply Hps; now left).
    destruct i as [|j]; simpl.
    + field. exact Hq.
    + rewrite IH; [|exact Hp| |simpl in Hi; lia].
      * field. split; assumption.
      * intros x Hx. apply Hps. now right.
Qed.

(** X6.  For closes that are never zero, the benchmark column is aligned
    with the sliced closes and its value on each date is 100 000 times the
    close of that date over the first close of the slice: the money held
    from the first date on without trading. *)
Theorem benchmark_is_rebased_close (close_slice : Series Q) (i : nat) :
  (forall p, In p (values close_slice) -> ~ p == 0) ->
  (i < List.length close_slice)%nat ->
  index (benchmark close_slice) = index close_slice
  /\ nth i (values (benchmark close_slice)) 0
     == 100000 * (nth i (values close_slice) 0 / nth 0 (values close_slice) 0).
Proof.
  intros Hnz Hi. unfold benchmark. cbv zeta.
  set (ps := values close_slice) in *.
  assert (List.length ps = List.length close_slice) as Hlen by apply values_length.
  assert (List.length (map (fun x => x * 100000)
            (cumprod (map (fun r => 1 + r) (fillna 0 (pct_change ps)))))
          = List.length (index close_slice)) as Hl.
  { unfold cumprod, fillna, pct_change.
    now rewrite length_map, cumprod_from_length, !length_map,
      pct_change_from_length, index_length. }
  split; [now apply index_combine|].
  rewrite values_combine by (now rewrite Hl).
  rewrite (nth_map_in_range (fun x => x * 100000) _ 0)
    by (unfold cumprod, fillna, pct_change;
        rewrite cumprod_from_length, !length_map, pct_change_from_length; lia).
  destruct ps as [|p0 rest]; [simpl in Hlen; lia|].
  assert (~ p0 == 0) as Hp0 by (apply Hnz; now left).
  unfold cumprod, pct_change. cbn [pct_change_from fillna map cumprod_from].
  unfold NaN. cbv iota.
  destruct i as [|j].
  - cbn [nth]. field. exact Hp0.
  - cbn [nth].
    match goal with
    | |- ?x * _ == _ =>
        assert (x == 1 * (1 + 0) * (nth j rest 0 / p0)) as Hc
    end.
    { apply (cumprod_from_chain rest p0 (1 * (1 + 0)) j Hp0).
      - intros x Hx. apply Hnz. now right.
      - simpl in Hlen. lia. }
    rewrite Hc. field. exact Hp0.
Qed.

(** The scenario: 112 on the last day against 100 on the first. *)
Lemma benchmark_is_rebased_close_witness :
  nth 7 (values (benchmark scenario_prices)) 0 == 112000.
Proof.
  destruct (benchmark_is_rebased_close scenario_prices 7) as [_ H].
  - intros p Hp. simpl in Hp.
    repeat (destruct Hp as [<-|Hp]; [discriminate|]). contradiction.
  - simpl. lia.
  - rewrite H. reflexivity.
Defined.

(** ** [export_latest_data] *)

Lemma insert_by_date_perm (r : row) (rs : list row) :
  Permutation (insert_by_date r rs) (r :: rs).
Proof.
  induction rs as [|x rs IH]; simpl; [reflexivity|].
  destruct (date r <=? date x)%Z; [reflexivity|].
  rewrite IH. apply perm_swap.
Qed.

Lemma sort_values_perm (rs : list row) : Permutation (sort_values rs) rs.
Proof.
  induction rs as [|x rs IH]; simpl; [reflexivity|].
  fold (sort_values rs). rewrite insert_by_date_perm. now apply perm_skip.
Qed.

Lemma insert_by_date_ascending (r : row) (rs : list row) :
  StronglySorted (fun a b => date_ge b a) rs ->
  StronglySorted (fun a b => date_ge b a) (insert_by_date r rs).
Proof.
  induction 1 as [|y rs Hs IH Hy]; simpl; [repeat constructor|].
  rewrite Forall_forall in Hy. unfold date_ge in *.
  destruct (date r <=? date y)%Z eqn:E.
  - apply Z.leb_le in E. constructor; [now constructor; [|apply Forall_forall]|].
    apply Forall_forall. intros z [<-|Hz]; [exact E|].
    specialize (Hy z Hz). lia.
  - apply Z.leb_gt in E. constructor; [exact IH|].
    apply Forall_forall. intros z Hz. apply insert_by_date_In in Hz.
    destruct Hz as [->|Hz]; [lia|now apply Hy].
Qed.

Lemma sort_values_ascending (rs : list row) :
  StronglySorted (fun a b => date_ge b a) (sort_values rs).
Proof.
  induction rs as [|x rs IH]; simpl; [constructor|].
  now apply insert_by_date_ascending.
Qed.

Lemma StronglySorted_rev {A} (R : A -> A -> Prop) (l : list A) :
  StronglySorted (fun a b => R b a) l -> StronglySorted R (rev l).
Proof.
  induction 1 as [|x l Hs IH Hx]; simpl; [constructor|].
  rewrite Forall_forall in Hx.
  apply StronglySorted_app; [exact IH|repeat constructor|].
  intros a b Ha [<-|[]]. apply Hx. now apply in_rev.
Qed.

(** X7.  From a stored table, [export_latest_data] returns [limit] rows (all
    of them when the table has fewer), newest first, and no row left out is
    more recent than a row returned; on a table sorted by increasing date
    these are its last rows in reverse.  A missing table, from which
    [save_to_postgres] recovers, is an error here. *)
Theorem export_latest_data_newest_rows (rs : list row) (limit : nat) :
  (exists out older,
     export_latest_data (Postgres.Connected (Some rs)) limit = Postgres.Ok out
     /\ List.length out = Nat.min limit (List.length rs)
     /\ StronglySorted date_ge out
     /\ Permutation rs (out ++ older)
     /\ (forall a b, In a out -> In b older -> (date b <= date a)%Z)
     /\ (StronglySorted date_lt rs -> out = firstn limit (rev rs)))
  /\ export_latest_data (Postgres.Connected None) limit
     = Postgres.Raise "relation sp500_prices does not exist"
  /\ Postgres.save_to_postgres (Postgres.Connected None) rs
     <> Postgres.Raise "relation sp500_prices does not exist".
Proof.
  split; [|split; [reflexivity|]].
  - set (desc := rev (sort_values rs)).
    assert (StronglySorted date_ge desc) as Hdesc
      by apply StronglySorted_rev, sort_values_ascending.
    assert (Permutation rs desc) as Hperm.
    { unfold desc. rewrite <- Permutation_rev. symmetry. apply sort_values_perm. }
    rewrite <- (firstn_skipn limit desc) in Hdesc.
    destruct (StronglySorted_app_inv _ _ _ Hdesc) as (Hout & _ & Hcross).
    exists (firstn limit desc), (skipn limit desc).
    split; [reflexivity|]. split.
    { rewrite length_firstn. unfold desc.
      now rewrite length_rev, (Permutation_length (sort_values_perm rs)). }
    split; [exact Hout|]. split; [now rewrite firstn_skipn|].
    split; [exact Hcross|].
    intros Hs. unfold desc. now rewrite sort_values_id.
  - destruct rs; discriminate.
Qed.

(** ** Range selection and the page flow *)

Lemma loc_slice_all {A} (s e : Z) (xs : Series A) :
  (forall d, In d (index xs) -> (s <= d <= e)%Z) -> loc_slice s e xs = xs.
Proof.
  intros H. unfold loc_slice. apply forallb_filter_id, forallb_forall.
  intros p Hp. assert (s <= fst p <= e)%Z as Hr by (apply H; now apply in_map).
  apply andb_true_iff. split; apply Z.leb_le; lia.
Qed.

Section RangeSelection.

Variable PortfolioT : Type.
Variable MA_run : Series Q -> nat -> Series cell.
Variables ma_crossed_above ma_crossed_below :
  Series cell -> Series cell -> Series bool.
Variable from_signals :
  Series Q -> Series bool -> Series bool -> Q -> PortfolioT.
Variable pf_close : PortfolioT -> Series Q.
Variables stats_win_rate stats_total_trades : PortfolioT -> cell.

Let backtest :=
  sma_crossover_backtest MA_run ma_crossed_above ma_crossed_below from_signals.
Let signals := full_signals MA_run ma_crossed_above ma_crossed_below.

(** X8.  When the library returns signals indexed like the closes, a window
    that covers every date of the history gives the outcome of the call
    without a window; and a call with only one of the two bounds ignores
    it. *)
Theorem window_over_whole_history (close : Series Q) (sw lw : nat) (s e : Z) :
  index (fst (signals close sw lw)) = index close ->
  index (snd (signals close sw lw)) = index close ->
  (forall d, In d (index close) -> (s <= d <= e)%Z) ->
  backtest close sw lw (Some s) (Some e) = backtest close sw lw None None
  /\ backtest close sw lw (Some s) None = backtest close sw lw None None
  /\ backtest close sw lw None (Some e) = backtest close sw lw None None.
Proof.
  intros Hen Hex Hall. split; [|split; reflexivity].
  unfold backtest, sma_crossover_backtest, sliced_inputs.
  fold (signals close sw lw).
  destruct (signals close sw lw) as [entries exits]. cbn [fst snd] in Hen, Hex.
  rewrite !loc_slice_all; [reflexivity| | |exact Hall].
  - now rewrite Hex.
  - now rewrite Hen.
Qed.

(** The three ways the page ends, in terms of the cleaned closes. *)
Lemma run_analysis_cases
    (now : Z) (p : period) (loaded : Series cell) (sw lw : nat) :
  (forall c en ex cash, pf_close (from_signals c en ex cash) = c) ->
  let close := dropna_series (ffill loaded) in
  let s := fst (backtest_period now p) in
  let e := snd (backtest_period now p) in
  let in_range := loc_slice s e close in
  let pf := from_signals in_range (loc_slice s e (fst (signals close sw lw)))
              (loc_slice s e (snd (signals close sw lw))) 100000 in
  match run_analysis MA_run ma_crossed_above ma_crossed_below from_signals
          pf_close stats_win_rate stats_total_trades now p loaded sw lw with
  | NoDataAvailable => close = []
  | NoDataForPeriod => close <> [] /\ in_range = []
  | Results warning col2 =>
      in_range <> []
      /\ warning = (List.length in_range <? 20)%nat
      /\ col2 = win_rate_metric (stats_win_rate pf) (stats_total_trades pf)
  end.
Proof.
  intros Hclose. cbv zeta. unfold run_analysis.
  destruct (backtest_period now p) as [s e]. cbn [fst snd].
  destruct (dropna_series (ffill loaded)) as [|c0 cs] eqn:Ec; [reflexivity|].
  cbn [empty]. rewrite <- Ec.
  set (close := dropna_series (ffill loaded)) in *.
  unfold sma_crossover_backtest, sliced_inputs. fold (signals close sw lw).
  destruct (signals close sw lw) as [entries exits]. cbn [fst snd].
  destruct (loc_slice s e close) as [|x xs] eqn:Es; cbn [empty].
  - split; [rewrite Ec; discriminate|reflexivity].
  - rewrite Hclose. cbn [List.length Nat.eqb]. repeat split. discriminate.
Qed.

(** X9.  When [pf.close] is the close series the portfolio was built from,
    the page ends in one of three ways, told by the loaded closes alone: the
    no-data error exactly when every loaded close is missing; the
    no-data-for-period error when some close is valid but no date from the
    first valid close on lies in the backtest period; and else the results,
    with the short-period warning exactly when fewer than 20 of those dates
    lie in the period, and with the win-rate widget of the portfolio
    simulated on the slices. *)
Theorem run_analysis_outcomes
    (now : Z) (p : period) (loaded : Series cell) (sw lw : nat) :
  (forall c en ex cash, pf_close (from_signals c en ex cash) = c) ->
  let close := dropna_series (ffill loaded) in
  let s := fst (backtest_period now p) in
  let e := snd (backtest_period now p) in
  let kept := index (drop_leading_nan loaded) in
  let in_period d := ((s <=? d)%Z && (d <=? e)%Z) in
  let pf := from_signals (loc_slice s e close)
              (loc_slice s e (fst (signals close sw lw)))
              (loc_slice s e (snd (signals close sw lw))) 100000 in
  match run_analysis MA_run ma_crossed_above ma_crossed_below from_signals
          pf_close stats_win_rate stats_total_trades now p loaded sw lw with
  | NoDataAvailable => forall x, In x loaded -> snd x = NaN
  | NoDataForPeriod =>
      (exists x, In x loaded /\ snd x <> NaN)
      /\ forall d, In d kept -> in_period d = false
  | Results warning col2 =>
      (exists d, In d kept /\ in_period d = true)
      /\ warning = (List.length (filter in_period kept) <? 20)%nat
      /\ col2 = win_rate_metric (stats_win_rate pf) (stats_total_trades pf)
  end.
Proof.
  intros Hclose. cbv zeta.
  pose proof (run_analysis_cases now p loaded sw lw Hclose) as H. cbv zeta in H.
  pose proof (ffill_dropna_index loaded) as Hidx.
  set (close := dropna_series (ffill loaded)) in *.
  set (s := fst (backtest_period now p)) in *.
  set (e := snd (backtest_period now p)) in *.
  assert (close <> [] -> exists x, In x loaded /\ snd x <> NaN) as Hsome.
  { intros Hne. destruct (drop_leading_nan_head loaded) as [E|(d & q & rest & E)].
    - exfalso. apply Hne. rewrite E in Hidx. now destruct close.
    - exists (d, Some q). split; [|discriminate].
      apply drop_leading_nan_incl. rewrite E. now left. }
  destruct (run_analysis MA_run ma_crossed_above ma_crossed_below from_signals
              pf_close stats_win_rate stats_total_trades now p loaded sw lw)
    as [| |warning col2].
  - apply (proj1 (drop_leading_nan_nil loaded)). rewrite H in Hidx.
    destruct (drop_leading_nan loaded); [reflexivity|discriminate Hidx].
  - destruct H as [Hne Hnil]. split; [now apply Hsome|].
    intros d Hd. rewrite <- Hidx in Hd.
    pose proof (proj1 (loc_slice_nil_iff s e close) Hnil d Hd) as Hout.
    apply not_true_is_false. intros Ht. apply Hout.
    apply andb_true_iff in Ht. destruct Ht as [H1 H2].
    apply Z.leb_le in H1, H2. lia.
  - destruct H as (Hne & -> & ->). split; [|split; [|reflexivity]].
    + destruct (loc_slice s e close) as [|x xs] eqn:Es; [contradiction|].
      assert (In x (loc_slice s e close)) as Hx by (rewrite Es; now left).
      apply loc_slice_In in Hx. destruct Hx as [Hx Hr].
      exists (fst x). split; [rewrite <- Hidx; now apply in_map|].
      apply andb_true_iff. split; apply Z.leb_le; lia.
    + rewrite <- Hidx, <- loc_slice_index, index_length. reflexivity.
Qed.

End RangeSelection.

(** The scenario with a window over its eight days. *)
Lemma window_over_whole_history_witness :
  sma_crossover_backtest_vbt scenario_prices 1 2 (Some 1%Z) (Some 8%Z)
  = sma_crossover_backtest_vbt scenario_prices 1 2 None None.
Proof.
  apply (window_over_whole_history Vbt.Portfolio Vbt.MA_run Vbt.ma_crossed_above
           Vbt.ma_crossed_below Vbt.from_signals scenario_prices 1 2 1 8).
  - reflexivity.
  - reflexivity.
  - intros d Hd. simpl in Hd.
    repeat (destruct Hd as [<-|Hd]; [lia|]). contradiction.
Defined.

(** The gappy sample read at noon of day 6: three dates in the period, so
    the results come with the short-period warning. *)
Lemma run_analysis_outcomes_witness :
  exists col2,
    run_analysis Vbt.MA_run Vbt.ma_crossed_above Vbt.ma_crossed_below
      Vbt.from_signals Vbt.pf_close Vbt.win_rate (fun _ => NaN)
      day_six_noon Last1Year gappy_close 1 2
    = Results true col2.
Proof.
  pose proof (run_analysis_outcomes Vbt.Portfolio Vbt.MA_run Vbt.ma_crossed_above
                Vbt.ma_crossed_below Vbt.from_signals Vbt.pf_close Vbt.win_rate
                (fun _ => NaN) day_six_noon Last1Year gappy_close 1 2
                (fun _ _ _ _ => eq_refl)) as H.
  cbv zeta in H.
  destruct (run_analysis Vbt.MA_run Vbt.ma_crossed_above Vbt.ma_crossed_below
              Vbt.from_signals Vbt.pf_close Vbt.win_rate (fun _ => NaN)
              day_six_noon Last1Year gappy_close 1 2) as [| |warning col2].
  - specialize (H (3%Z, Some 100)). simpl in H. discriminate H. tauto.
  - destruct H as [_ H]. specialize (H 3%Z). simpl in H.
    assert (true = false) as X by (apply H; tauto). discriminate X.
  - destruct H as (_ & -> & _). exists col2. reflexivity.
Defined.

(** X10.  Cutting a cut series again keeps the dates in both windows; so
    cutting twice to one window is cutting once, and the window of a shorter
    backtest period, taken from the cut of a longer one at the same clock
    reading, is the cut of the whole history. *)
Theorem loc_slice_nested {A} (s e a b : Z) (xs : Series A) :
  loc_slice a b (loc_slice s e xs) = loc_slice (Z.max s a) (Z.min e b) xs
  /\ loc_slice s e (loc_slice s e xs) = loc_slice s e xs
  /\ (forall now p1 p2,
        (period_days p1 <= period_days p2)%Z ->
        loc_slice (fst (backtest_period now p1)) (snd (backtest_period now p1))
          (loc_slice (fst (backtest_period now p2)) (snd (backtest_period now p2)) xs)
        = loc_slice (fst (backtest_period now p1)) (snd (backtest_period now p1)) xs).
Proof.
  assert (forall s e a b,
            loc_slice a b (loc_slice s e xs) = loc_slice (Z.max s a) (Z.min e b) xs) as H.
  { intros s0 e0 a0 b0. unfold loc_slice. rewrite filter_filter_andb.
    apply filter_ext. intros p.
    destruct (Z.leb_spec s0 (fst p)), (Z.leb_spec (fst p) e0),
      (Z.leb_spec a0 (fst p)), (Z.leb_spec (fst p) b0),
      (Z.leb_spec (Z.max s0 a0) (fst p)), (Z.leb_spec (fst p) (Z.min e0 b0));
      simpl; try reflexivity; lia. }
  split; [apply H|]. split.
  - rewrite H. now rewrite Z.max_id, Z.min_id.
  - intros now p1 p2 Hle. rewrite H. unfold backtest_period. cbn [fst snd].
    f_equal; lia.
Qed.

(** ** Bounds of a moving average *)

Lemma sum_from_bounds (f : nat -> Q) (lo hi : Q) (a n : nat) :
  (forall k, (a <= k < a + n)%nat -> lo <= f k /\ f k <= hi) ->
  inject_Z (Z.of_nat n) * lo <= sum_from f a n
  /\ sum_from f a n <= inject_Z (Z.of_nat n) * hi.
Proof.
  revert a. induction n as [|n IH]; intros a H.
  - simpl. split; rewrite Qmult_0_l; apply Qle_refl.
  - destruct (H a) as [Hlo Hhi]; [lia|].
    destruct (IH (S a)) as [Ilo Ihi]; [intros k Hk; apply H; lia|].
    rewrite Nat2Z.inj_succ. unfold Z.succ. rewrite inject_Z_plus.
    cbn [sum_from]. split.
    + setoid_replace ((inject_Z (Z.of_nat n) + inject_Z 1) * lo)
        with (lo + inject_Z (Z.of_nat n) * lo) by ring.
      now apply Qplus_le_compat.
    + setoid_replace ((inject_Z (Z.of_nat n) + inject_Z 1) * hi)
        with (hi + inject_Z (Z.of_nat n) * hi) by ring.
      now apply Qplus_le_compat.
Qed.

(** X11.  On closes without a missing value, a defined moving average lies
    between the least and the greatest close of its window; over constant
    closes it is that constant. *)
Theorem rolling_mean_within_window (xs : list Q) (w i : nat) (lo hi : Q) :
  (1 <= w)%nat -> (w - 1 <= i)%nat -> (i < List.length xs)%nat ->
  (forall k, (i + 1 - w <= k <= i)%nat -> lo <= nth k xs 0 /\ nth k xs 0 <= hi) ->
  exists m, nth i (rolling_mean w (map Some xs)) NaN = Some m
            /\ lo <= m /\ m <= hi.
Proof.
  intros Hw Hge Hi Hb. rewrite rolling_mean_valid by assumption.
  replace (w <=? S i)%nat with true by (symmetry; apply Nat.leb_le; lia).
  eexists. split; [reflexivity|].
  destruct (sum_from_bounds (fun k => nth k xs 0) lo hi (S i - w) w) as [Hlo Hhi].
  { intros k Hk. apply Hb. lia. }
  assert (0 < inject_Z (Z.of_nat w)) as Hpos
    by (change 0 with (inject_Z 0); rewrite <- Zlt_Qlt; lia).
  split.
  - apply Qle_shift_div_l; [exact Hpos|]. now rewrite Qmult_comm.
  - apply Qle_shift_div_r; [exact Hpos|]. now rewrite Qmult_comm.
Qed.

(** Three days at 100: the two-day average of the last day is 100. *)
Lemma rolling_mean_within_window_witness :
  exists m, nth 2 (rolling_mean 2 (map Some (values flat_prices))) NaN = Some m
            /\ 100 <= m /\ m <= 100.
Proof.
  apply (rolling_mean_within_window (values flat_prices) 2 2 100 100).
  - lia.
  - simpl. lia.
  - simpl. lia.
  - intros k Hk. assert (k = 1 \/ k = 2)%nat as [-> | ->] by lia;
      split; discriminate.
Defined.

(** ** A frame without price columns *)

Lemma drop_duplicates_last_dates (rs : list row) (d : Z) :
  In d (map date rs) <-> In d (map date (drop_duplicates_last rs)).
Proof.
  induction rs as [|x rs IH]; simpl; [reflexivity|].
  destruct (existsb _ rs) eqn:E; simpl.
  - rewrite <- IH. split; [|now right].
    intros [<-|H]; [|exact H].
    apply existsb_exists in E. destruct E as (y & Hy & Hd).
    apply Z.eqb_eq in Hd. rewrite <- Hd. now apply in_map.
  - now rewrite IH.
Qed.

(** X12.  On a frame that has none of the five price columns, no row is
    dropped for a missing or negative value: [clean_data] keeps the last row
    of every date and sorts, and the dates of its output are the dates of
    the input. *)
Theorem clean_data_without_price_columns (df : DataFrame) :
  existing_cols df = [] ->
  rows (clean_data df) = sort_values (drop_duplicates_last (rows df))
  /\ (forall d, In d (map date (rows df)) <-> In d (map date (rows (clean_data df))))
  /\ StronglySorted date_lt (rows (clean_data df)).
Proof.
  intros Hex.
  assert (rows (clean_data df) = sort_values (drop_duplicates_last (rows df))) as Hrows.
  { unfold clean_data. cbn [rows]. rewrite Hex. simpl.
    unfold dropna. simpl. now rewrite forallb_filter_id by (now apply forallb_forall). }
  split; [exact Hrows|]. split; [|apply clean_data_sorted].
  intros d. rewrite Hrows, (drop_duplicates_last_dates (rows df) d).
  rewrite !in_map_iff. split; intros (r & Hd & Hr); exists r; split; auto;
    now apply sort_values_In.
Qed.

(** The dates-only sample: days 1 and 2, once each, in order. *)
Lemma clean_data_without_price_columns_witness :
  map date (rows (clean_data dates_only_frame)) = [1%Z; 2%Z].
Proof.
  destruct (clean_data_without_price_columns dates_only_frame) as [H _].
  - reflexivity.
  - rewrite H. reflexivity.
Defined.
